(** * The Tape: OpenClaw session transcript to Tape v1

    A shallow embedding of [scripts/openclaw_session_to_tape.py]: the
    redaction rules and [redact], [safe_json], [parse_ts],
    [normalize_openclaw] and [build_tape_v1], followed by the properties
    of the specification that were checked against them.

    Conventions of the embedding.
    - A Python [str] is a list of Unicode code points ([pystr]).
    - A parsed JSON value is a [value]; Python's [None] is [JNull].
    - What the script takes from the Python standard library and cannot
      be read off its own text (the Unicode character database behind
      [re] and [str.strip], [json.dumps], [str] of a non-string,
      [datetime.fromisoformat], [datetime.utcnow], [isoformat]) is
      gathered in the record [env]; every function of the script is
      defined in a section over an arbitrary [env].
    - A [datetime] is a wall-clock reading in microseconds together with
      its UTC offset when it is aware; elapsed times are kept as exact
      integers of microseconds ([total_seconds] divides them by 10^6). *)

From Stdlib Require Import String Ascii ZArith NArith Bool Lia.
From Stdlib Require Import SpecFloat DecimalString DecimalNat DecimalFacts.
From Stdlib Require Import Sorted.
From stdpp Require Import list.

Set Implicit Arguments.
Local Open Scope N_scope.

(** ** Strings *)

Definition char := N.
Definition pystr := list char.

Fixpoint u (s : string) : pystr :=
  match s with
  | EmptyString => []
  | String a s' => N_of_ascii a :: u s'
  end.

Definition NL : char := 10.
(** U+2026 HORIZONTAL ELLIPSIS *)
Definition ELLIPSIS : char := 8230.

Fixpoint str_eqb (a b : pystr) : bool :=
  match a, b with
  | [], [] => true
  | x :: a', y :: b' => (x =? y) && str_eqb a' b'
  | _, _ => false
  end.

(** [sep.join(parts)] *)
Fixpoint join (sep : pystr) (parts : list pystr) : pystr :=
  match parts with
  | [] => []
  | [p] => p
  | p :: rest => p ++ sep ++ join sep rest
  end.

(** [s.replace("Z", "+00:00")] *)
Fixpoint replace_Z (s : pystr) : pystr :=
  match s with
  | [] => []
  | c :: s' => (if c =? 90 then u "+00:00" else [c]) ++ replace_Z s'
  end.

(** ** The Unicode character database

    The classification and case tables are consulted for code points
    above 127 only; the ASCII range is written out below as CPython has
    it. *)

Record unicode_db := {
  uni_isalnum : char -> bool;      (* str.isalnum *)
  uni_isdecimal : char -> bool;    (* category Nd *)
  uni_isspace : char -> bool;      (* str.isspace *)
  uni_lower : char -> char;        (* simple lower-case mapping *)
  uni_upper : char -> char;        (* simple upper-case mapping *)
  uni_casefix : char -> list char  (* the case fixes of [re] *)
}.

Definition in_range (lo hi c : char) : bool := (lo <=? c) && (c <=? hi).
Definition is_ascii (c : char) : bool := c <? 128.
Definition ascii_upper (c : char) : bool := in_range 65 90 c.
Definition ascii_lower (c : char) : bool := in_range 97 122 c.
Definition ascii_digit (c : char) : bool := in_range 48 57 c.
Definition ascii_space (c : char) : bool :=
  in_range 9 13 c || in_range 28 32 c.

Section Unicode.
Variable U : unicode_db.

(** [\s] of a [str] pattern, and the characters [str.strip] removes *)
Definition is_space (c : char) : bool :=
  if is_ascii c then ascii_space c else uni_isspace U c.

(** [\d] *)
Definition is_digit (c : char) : bool :=
  if is_ascii c then ascii_digit c else uni_isdecimal U c.

(** [\w] *)
Definition is_word (c : char) : bool :=
  if is_ascii c
  then ascii_upper c || ascii_lower c || ascii_digit c || (c =? 95)
  else uni_isalnum U c.

Definition lower (c : char) : char :=
  if is_ascii c then (if ascii_upper c then c + 32 else c)
  else uni_lower U c.

Definition upper (c : char) : char :=
  if is_ascii c then (if ascii_lower c then c - 32 else c)
  else uni_upper U c.

Definition iscased (c : char) : bool :=
  negb (c =? lower c) || negb (c =? upper c).

(** the case fixes of [re]: the other lower-case characters with the
    upper case of [c]; in ASCII, dotless i for [i] and long s for [s] *)
Definition casefix (c : char) : list char :=
  if is_ascii c
  then (if c =? 105 then [305] else if c =? 115 then [383] else [])
  else uni_casefix U c.

(** [s.strip()] *)
Fixpoint lstrip (s : pystr) : pystr :=
  match s with
  | [] => []
  | c :: s' => if is_space c then lstrip s' else s
  end.

Definition strip (s : pystr) : pystr := rev (lstrip (rev (lstrip s))).

End Unicode.

(** ** Regular expressions

    The fragment of Python's [re] that the script's patterns are written
    in: classes of one character, the word boundary, concatenation,
    ordered alternation, and greedy or lazy repetition of a class (every
    quantifier in the script is applied to a single class). Matching is
    by backtracking in the order [re] explores: the first alternative
    before the second, a greedy repetition from the longest run down, a
    lazy one from the shortest up. *)

Inductive item :=
| IChar (c : char)            (* a literal character *)
| IRange (lo hi : char)       (* lo-hi *)
| ISpace                      (* \s *)
| INotSpace                   (* \S *)
| IDigit.                     (* \d *)

Inductive regex :=
| Eps
| Cls (neg : bool) (items : list item)
| WordB                                               (* \b *)
| Cat (r1 r2 : regex)
| Alt (r1 r2 : regex)
| Rep (greedy : bool) (lo : nat) (hi : option nat)
      (neg : bool) (items : list item).

(** A compiled pattern: the expression and the [re.IGNORECASE] flag. *)
Record pattern := { pat_re : regex; pat_ignorecase : bool }.

Section Regex.
Variable U : unicode_db.

Definition item_match (c : char) (i : item) : bool :=
  match i with
  | IChar x => c =? x
  | IRange lo hi => in_range lo hi c
  | ISpace => is_space U c
  | INotSpace => negb (is_space U c)
  | IDigit => is_digit U c
  end.

(** Under [re.IGNORECASE] a class with a cased member is compiled to the
    set of the lower-cased members and their case fixes, and the
    lower-cased subject character is looked up in it. *)
Definition folds_to (l x : char) : bool :=
  (l =? lower U x) || existsb (N.eqb l) (casefix U (lower U x)).

Definition item_match_ci (l : char) (i : item) : bool :=
  match i with
  | IChar x => if iscased U x then folds_to l x else l =? x
  | IRange lo hi =>
      existsb (fun k => folds_to l (lo + N.of_nat k))
              (seq 0 (N.to_nat (hi + 1 - lo)))
  | ISpace => is_space U l
  | INotSpace => negb (is_space U l)
  | IDigit => is_digit U l
  end.

Definition item_cased (i : item) : bool :=
  match i with
  | IChar x => iscased U x
  | IRange lo hi =>
      existsb (fun k => iscased U (lo + N.of_nat k))
              (seq 0 (N.to_nat (hi + 1 - lo)))
  | _ => false
  end.

Definition cls_match (ic neg : bool) (items : list item) (c : char) : bool :=
  xorb neg
    (if ic && existsb item_cased items
     then existsb (item_match_ci (lower U c)) items
     else existsb (item_match c) items).

(** [\b]: exactly one side of the position is a [\w] character. *)
Definition at_boundary (prev : option char) (s : pystr) : bool :=
  xorb (match prev with Some c => is_word U c | None => false end)
       (match s with c :: _ => is_word U c | [] => false end).

Definition more (hi : option nat) : bool :=
  match hi with Some O => false | _ => true end.

Definition dec (hi : option nat) : option nat := option_map Nat.pred hi.

Section Matcher.
Variable R : Type.        (* what the continuation returns on success *)
Let cont := option char -> pystr -> option R.

Fixpoint rep_greedy (ok : char -> bool) (lo : nat) (hi : option nat)
    (prev : option char) (s : pystr) (k : cont) : option R :=
  let stop := match lo with O => k prev s | S _ => None end in
  match s with
  | c :: s' =>
      if more hi && ok c then
        match rep_greedy ok (Nat.pred lo) (dec hi) (Some c) s' k with
        | Some r => Some r
        | None => stop
        end
      else stop
  | [] => stop
  end.

Fixpoint rep_lazy (ok : char -> bool) (lo : nat) (hi : option nat)
    (prev : option char) (s : pystr) (k : cont) : option R :=
  let step :=
    match s with
    | c :: s' =>
        if more hi && ok c
        then rep_lazy ok (Nat.pred lo) (dec hi) (Some c) s' k
        else None
    | [] => None
    end in
  match lo with
  | O => match k prev s with Some r => Some r | None => step end
  | S _ => step
  end.

(** [rmatch ic r prev s k]: match [r] at the position whose preceding
    character is [prev] and whose remaining subject is [s], then hand
    the position reached to [k]; [None] when every way fails. *)
Fixpoint rmatch (ic : bool) (r : regex) (prev : option char) (s : pystr)
    (k : cont) : option R :=
  match r with
  | Eps => k prev s
  | Cls neg items =>
      match s with
      | c :: s' => if cls_match ic neg items c then k (Some c) s' else None
      | [] => None
      end
  | WordB => if at_boundary prev s then k prev s else None
  | Cat r1 r2 => rmatch ic r1 prev s (fun p' s' => rmatch ic r2 p' s' k)
  | Alt r1 r2 =>
      match rmatch ic r1 prev s k with
      | Some x => Some x
      | None => rmatch ic r2 prev s k
      end
  | Rep true lo hi neg items =>
      rep_greedy (cls_match ic neg items) lo hi prev s k
  | Rep false lo hi neg items =>
      rep_lazy (cls_match ic neg items) lo hi prev s k
  end.
End Matcher.

(** One attempt at the current position: the length of the match found.
    With [must_advance] an empty match is refused and the search for
    another way goes on ([re] sets it after an empty match). *)
Definition attempt (p : pattern) (must_advance : bool)
    (prev : option char) (s : pystr) : option nat :=
  rmatch (pat_ignorecase p) (pat_re p) prev s
    (fun _ s' =>
       let n := (length s - length s')%nat in
       if must_advance && Nat.eqb n 0 then None else Some n).

(** [bool(pat.search(s))] *)
Fixpoint search_from (p : pattern) (prev : option char) (s : pystr) : bool :=
  match attempt p false prev s with
  | Some _ => true
  | None =>
      match s with
      | [] => false
      | c :: s' => search_from p (Some c) s'
      end
  end.

Definition re_search (p : pattern) (s : pystr) : bool := search_from p None s.

(** [pat.sub(rep, s)] with a replacement that has no group reference.
    [skip] counts the characters of the current match still to be
    dropped. The scan resumes where a match ended; after an empty match
    the same position is tried once more for a non-empty one. *)
Fixpoint sub_from (p : pattern) (rep : pystr) (prev : option char)
    (s : pystr) (skip : nat) : pystr :=
  let next (n : nat) :=
    match s with
    | c :: s' => sub_from p rep (Some c) s' n
    | [] => []
    end in
  let copy :=
    match s with
    | c :: s' => c :: sub_from p rep (Some c) s' 0
    | [] => []
    end in
  match skip with
  | S n => next n
  | O =>
      match attempt p false prev s with
      | Some (S n) => rep ++ next n
      | Some O =>
          rep ++ match attempt p true prev s with
                 | Some (S n) => rep ++ next n
                 | _ => copy
                 end
      | None => copy
      end
  end.

Definition re_sub (p : pattern) (rep : pystr) (s : pystr) : pystr :=
  sub_from p rep None s 0.

End Regex.

(** ** Writing patterns *)

Definition chr (a : ascii) : regex := Cls false [IChar (N_of_ascii a)].

Fixpoint lit (s : string) : regex :=
  match s with
  | EmptyString => Eps
  | String a EmptyString => chr a
  | String a s' => Cat (chr a) (lit s')
  end.

Fixpoint cat (rs : list regex) : regex :=
  match rs with
  | [] => Eps
  | [r] => r
  | r :: rs' => Cat r (cat rs')
  end.

(** the members of a class given as literal characters *)
Definition chars (s : string) : list item := map IChar (u s).

Definition A_Z : item := IRange 65 90.
Definition a_z : item := IRange 97 122.
Definition d0_9 : item := IRange 48 57.

(** [[...]{lo,}], [[...]{n}], [[...]+], [[...]*] (greedy) *)
Definition at_least (lo : nat) (items : list item) : regex :=
  Rep true lo None false items.
Definition exactly (n : nat) (items : list item) : regex :=
  Rep true n (Some n) false items.
Definition between (lo hi : nat) (items : list item) : regex :=
  Rep true lo (Some hi) false items.

Definition case_sensitive (r : regex) : pattern :=
  {| pat_re := r; pat_ignorecase := false |}.
Definition ignore_case (r : regex) : pattern :=
  {| pat_re := r; pat_ignorecase := true |}.

(** ** The redaction rules ([REDACTION_RULES], in the order of the source) *)

Definition REDACTION_RULES : list (pattern * pystr) := [
  (* \bsk-[A-Za-z0-9]{20,}\b *)
  (case_sensitive
     (cat [WordB; lit "sk-"; at_least 20 [A_Z; a_z; d0_9]; WordB]),
   u "sk-REDACTED");
  (* \bsk-ant-[A-Za-z0-9\-]{20,}\b *)
  (case_sensitive
     (cat [WordB; lit "sk-ant-";
           at_least 20 ([A_Z; a_z; d0_9] ++ chars "-"); WordB]),
   u "sk-ant-REDACTED");
  (* \bAIza[0-9A-Za-z\-_]{35}\b *)
  (case_sensitive
     (cat [WordB; lit "AIza";
           exactly 35 ([d0_9; A_Z; a_z] ++ chars "-_"); WordB]),
   u "AIzaREDACTED");
  (* \bgh[pousr]_[A-Za-z0-9]{20,}\b *)
  (case_sensitive
     (cat [WordB; lit "gh"; Cls false (chars "pousr"); lit "_";
           at_least 20 [A_Z; a_z; d0_9]; WordB]),
   u "gh_REDACTED");
  (* \bxox[baprs]-[0-9A-Za-z-]{10,}\b *)
  (case_sensitive
     (cat [WordB; lit "xox"; Cls false (chars "baprs"); lit "-";
           at_least 10 ([d0_9; A_Z; a_z] ++ chars "-"); WordB]),
   u "xox-REDACTED");
  (* \bBearer\s+[A-Za-z0-9\-\._~\+/]+=*\b *)
  (case_sensitive
     (cat [WordB; lit "Bearer"; at_least 1 [ISpace];
           at_least 1 ([A_Z; a_z; d0_9] ++ chars "-._~+/");
           at_least 0 (chars "="); WordB]),
   u "Bearer REDACTED");
  (* \bAKIA[0-9A-Z]{16}\b *)
  (case_sensitive
     (cat [WordB; lit "AKIA"; exactly 16 [d0_9; A_Z]; WordB]),
   u "AKIAREDACTED");
  (* \b[A-Za-z0-9/+=]{40}\b *)
  (case_sensitive
     (cat [WordB; exactly 40 ([A_Z; a_z; d0_9] ++ chars "/+="); WordB]),
   u "[aws-secret-redacted]");
  (* -----BEGIN [A-Z0-9 ]+-----[\s\S]*?-----END [A-Z0-9 ]+----- *)
  (case_sensitive
     (cat [lit "-----BEGIN "; at_least 1 ([A_Z; d0_9] ++ chars " ");
           lit "-----"; Rep false 0 None false [ISpace; INotSpace];
           lit "-----END "; at_least 1 ([A_Z; d0_9] ++ chars " ");
           lit "-----"]),
   u "[pem-block-redacted]");
  (* \beyJ[A-Za-z0-9_-]*\.eyJ[A-Za-z0-9_-]*\.[A-Za-z0-9_-]+\b *)
  (case_sensitive
     (cat [WordB; lit "eyJ"; at_least 0 ([A_Z; a_z; d0_9] ++ chars "_-");
           lit ".eyJ"; at_least 0 ([A_Z; a_z; d0_9] ++ chars "_-");
           lit "."; at_least 1 ([A_Z; a_z; d0_9] ++ chars "_-"); WordB]),
   u "[jwt-redacted]");
  (* (postgres|mysql|mongodb|redis)://[^\s Q']+   with re.IGNORECASE,
     where Q is the double quote, code point 34 *)
  (ignore_case
     (cat [Alt (lit "postgres")
               (Alt (lit "mysql") (Alt (lit "mongodb") (lit "redis")));
           lit "://";
           Rep true 1 None true [ISpace; IChar 34; IChar 39]]),
   u "[db-connection-redacted]");
  (* \b[A-Z0-9._%+-]+@[A-Z0-9.-]+\.[A-Z]{2,}\b   with re.IGNORECASE *)
  (ignore_case
     (cat [WordB; at_least 1 ([A_Z; d0_9] ++ chars "._%+-"); lit "@";
           at_least 1 ([A_Z; d0_9] ++ chars ".-"); lit ".";
           at_least 2 [A_Z]; WordB]),
   u "[email-redacted]");
  (* \b(\+?\d[\d\s().-]{7,}\d)\b *)
  (case_sensitive
     (cat [WordB; between 0 1 (chars "+"); Cls false [IDigit];
           at_least 7 ([IDigit; ISpace] ++ chars "().-");
           Cls false [IDigit]; WordB]),
   u "[phone-redacted]");
  (* \b\d{1,3}\.\d{1,3}\.\d{1,3}\.\d{1,3}\b *)
  (case_sensitive
     (cat [WordB; between 1 3 [IDigit]; lit "."; between 1 3 [IDigit];
           lit "."; between 1 3 [IDigit]; lit "."; between 1 3 [IDigit];
           WordB]),
   u "[ip-redacted]")
].

(** [re.compile(r"error|exception|traceback", re.IGNORECASE)],
    the pattern of the error test in [normalize_openclaw] *)
Definition ERROR_MARKERS : pattern :=
  ignore_case (Alt (lit "error") (Alt (lit "exception") (lit "traceback"))).

Section Redact.
Variable U : unicode_db.

(** [redact(text, enabled)]. [None] stands for Python's [None]. *)
Definition redact (text : option pystr) (enabled : bool) : option pystr :=
  if negb enabled then text
  else
    let out := match text with Some t => t | None => [] end in
    Some (fold_left (fun out rule => re_sub U (fst rule) (snd rule) out)
                    REDACTION_RULES out).

End Redact.

(** ** Parsed JSON and Python values *)

#[local] Set Warnings "-register-all".

Inductive value :=
| JNull                                (* null, Python's None *)
| JBool (b : bool)
| JInt (n : Z)
| JFloat (f : spec_float)
| JStr (s : pystr)
| JList (l : list value)
| JObj (kvs : list (pystr * value)).   (* a dict, in insertion order *)

(** [bool(v)] *)
Definition truthy (v : value) : bool :=
  match v with
  | JNull => false
  | JBool b => b
  | JInt n => negb (n =? 0)%Z
  | JFloat (S754_zero _) => false
  | JFloat _ => true
  | JStr s => negb (Nat.eqb (length s) 0)
  | JList l => negb (Nat.eqb (length l) 0)
  | JObj kvs => negb (Nat.eqb (length kvs) 0)
  end.

(** [a or b] *)
Definition py_or (a b : value) : value := if truthy a then a else b.

(** [v == "..."] for a string literal *)
Definition is_str (v : value) (s : string) : bool :=
  match v with JStr x => str_eqb x (u s) | _ => false end.

(** [k in d] and [d.get(k)] on the bindings of a dict (keys are distinct) *)
Fixpoint has_key (kvs : list (pystr * value)) (k : pystr) : bool :=
  match kvs with
  | [] => false
  | (k', _) :: rest => str_eqb k' k || has_key rest k
  end.

Fixpoint dict_get (kvs : list (pystr * value)) (k : pystr) : value :=
  match kvs with
  | [] => JNull
  | (k', v) :: rest => if str_eqb k' k then v else dict_get rest k
  end.

(** ** Exceptions *)

Inductive exn := ValueError | AttributeError | TypeError.

Inductive outcome (A : Type) :=
| Ok (a : A)
| Raise (e : exn).
Arguments Ok {A} a.
Arguments Raise {A} e.

Definition bind {A B} (m : outcome A) (k : A -> outcome B) : outcome B :=
  match m with
  | Ok a => k a
  | Raise e => Raise e
  end.

Notation "x <- m ;; k" := (bind m (fun x => k))
  (at level 100, m at next level, k at level 200, right associativity).

(** [v.get(k)]: only a dict has the method. *)
Definition get (v : value) (k : string) : outcome value :=
  match v with
  | JObj kvs => Ok (dict_get kvs (u k))
  | _ => Raise AttributeError
  end.

(** ** Dates *)

Record datetime := {
  wall : Z;                  (* the date and time fields, in microseconds *)
  utcoffset : option Z       (* [None] for a naive datetime *)
}.

(** [(a - b)] in microseconds; mixing naive and aware operands raises. *)
Definition dt_sub (a b : datetime) : outcome Z :=
  match utcoffset a, utcoffset b with
  | None, None => Ok (wall a - wall b)%Z
  | Some oa, Some ob => Ok ((wall a - oa) - (wall b - ob))%Z
  | _, _ => Raise TypeError
  end.

(** ** The standard library the script runs on *)

Record env := {
  unicode : unicode_db;
  (* json.dumps(v, indent=2, ensure_ascii=False); None when it raises *)
  json_dumps : value -> option pystr;
  (* str(v) for a v that is not a str *)
  py_repr : value -> pystr;
  (* datetime.fromisoformat(s); None when it raises *)
  fromisoformat : pystr -> option datetime;
  (* the wall-clock fields of the two readings of datetime.utcnow(),
     which are naive *)
  utcnow_start : Z;
  utcnow_recorded : Z;
  (* dt.isoformat() *)
  isoformat : datetime -> pystr
}.

(** ** Normalized sessions *)

Inductive step_type := User | Thought | Result | Action | Error.

Definition type_name (k : step_type) : pystr :=
  match k with
  | User => u "user"
  | Thought => u "thought"
  | Result => u "result"
  | Action => u "action"
  | Error => u "error"
  end.

Definition step_type_eqb (a b : step_type) : bool :=
  match a, b with
  | User, User | Thought, Thought | Result, Result
  | Action, Action | Error, Error => true
  | _, _ => false
  end.

(** A step dict: the keys [type], [t], [text], [code] and, on action
    steps only, [tool]. [step_t] is the elapsed time in microseconds
    (the script keeps the float [total_seconds()] of the same
    [timedelta]). *)
Record step := {
  step_type_of : step_type;
  step_t : Z;
  step_text : pystr;
  step_code : pystr;
  step_tool : option pystr
}.

Record session := {
  title : pystr;
  recorded_at : value;
  duration_seconds : Z;
  steps : list step
}.

(** the marker [safe_json] appends *)
Definition TRUNCATED : pystr := [NL; ELLIPSIS] ++ u "(truncated)" ++ [ELLIPSIS].

#[local] Set Warnings "-abstract-large-number".

Section Script.
Variable E : env.

(** [str(v)] *)
Definition py_str (v : value) : pystr :=
  match v with
  | JStr s => s
  | _ => py_repr E v
  end.

(** the string [safe_json] cuts: the value itself when it is a [str],
    else [json.dumps] of it, else (when that raises) [str] of it *)
Definition serialize (v : value) : pystr :=
  match v with
  | JStr s => s
  | _ => match json_dumps E v with
         | Some s => s
         | None => py_str v
         end
  end.

(** [safe_json(value, max_len)] *)
Definition safe_json (v : value) (max_len : nat) : pystr :=
  match v with
  | JNull => []
  | _ =>
      let s := serialize v in
      if (max_len <? length s)%nat then firstn max_len s ++ TRUNCATED else s
  end.

(** [parse_ts(v)] *)
Definition parse_ts (v : value) : option datetime :=
  if negb (truthy v) then None
  else fromisoformat E (replace_Z (py_str v)).

Definition utcnow : datetime := {| wall := utcnow_start E; utcoffset := None |}.

(** *** The first lines of [normalize_openclaw] *)

(** [next((r for r in records if r.get("type") == "session"), None)];
    the record found is a dict and is returned as its bindings *)
Fixpoint find_session (records : list value)
    : outcome (option (list (pystr * value))) :=
  match records with
  | [] => Ok None
  | r :: rest =>
      match r with
      | JObj kvs =>
          if is_str (dict_get kvs (u "type")) "session" then Ok (Some kvs)
          else find_session rest
      | _ => Raise AttributeError
      end
  end.

(** [r.get("type") == "message" or r.get("message")] *)
Definition is_message (r : value) : outcome bool :=
  ty <- get r "type" ;;
  m <- get r "message" ;;
  Ok (is_str ty "message" || truthy m).

(** [[r for r in records if ...]] *)
Fixpoint message_records (records : list value) : outcome (list value) :=
  match records with
  | [] => Ok []
  | r :: rest =>
      b <- is_message r ;;
      rest' <- message_records rest ;;
      Ok (if b then r :: rest' else rest')
  end.

(** [start_dt] *)
Definition start_time (first : value)
    (session_meta : option (list (pystr * value))) : outcome datetime :=
  ts <- get first "timestamp" ;;
  Ok (match parse_ts ts with
      | Some d => d
      | None =>
          match session_meta with
          | Some kvs =>
              if truthy (JObj kvs) then
                match parse_ts (dict_get kvs (u "timestamp")) with
                | Some d => d
                | None => utcnow
                end
              else utcnow
          | None => utcnow
          end
      end).

(** *** The body of the loop over the message records *)

(** the loop state: [steps] and [tool_stack] (the head of the list is
    the end of the Python list, where [append] and [pop] work) *)
Definition state : Type := list step * list nat.

Definition mk_step (k : step_type) (t : Z) (text code : pystr)
    (tool : option pystr) : step :=
  {| step_type_of := k; step_t := t; step_text := text; step_code := code;
     step_tool := tool |}.

(** [t = max(0.0, (ts - start_dt).total_seconds())] *)
Definition elapsed (start_dt : datetime) (rec : value) : outcome Z :=
  tsv <- get rec "timestamp" ;;
  let ts := match parse_ts tsv with Some d => d | None => start_dt end in
  d <- dt_sub ts start_dt ;;
  Ok (Z.max 0 d).

(** [content]: the list under [msg], else the one under [rec], else [[]] *)
Definition content_of (msg rec : value) : outcome (list value) :=
  c <- get msg "content" ;;
  match c with
  | JList l => Ok l
  | _ =>
      c' <- get rec "content" ;;
      Ok (match c' with JList l => l | _ => [] end)
  end.

(** [isinstance(c, dict) and c.get("type") == "text" and c.get("text")] *)
Definition is_text_block (c : value) : bool :=
  match c with
  | JObj kvs =>
      is_str (dict_get kvs (u "type")) "text"
      && truthy (dict_get kvs (u "text"))
  | _ => false
  end.

(** one content block of a [user] message *)
Definition user_block (t : Z) (sts : list step) (c : value) : list step :=
  match c with
  | JObj kvs =>
      if is_text_block c
      then sts ++ [mk_step User t (py_str (dict_get kvs (u "text"))) [] None]
      else sts
  | _ => sts
  end.

(** the argument payload of a [toolCall] block *)
Definition call_args (kvs : list (pystr * value)) : value :=
  let args := if has_key kvs (u "args") then dict_get kvs (u "args")
              else dict_get kvs (u "arguments") in
  match args with
  | JNull => if has_key kvs (u "params") then dict_get kvs (u "params")
             else dict_get kvs (u "input")
  | _ => args
  end.

(** [str(c.get("name") or c.get("tool") or "tool")] *)
Definition tool_name_of (kvs : list (pystr * value)) : pystr :=
  py_str (py_or (dict_get kvs (u "name"))
                (py_or (dict_get kvs (u "tool")) (JStr (u "tool")))).

(** one content block of an [assistant] message *)
Definition assistant_block (t : Z) (st : state) (c : value) : state :=
  let (sts, stack) := st in
  match c with
  | JObj kvs =>
      let ctype := dict_get kvs (u "type") in
      let txt := dict_get kvs (u "text") in
      if is_str ctype "thinking"
         && truthy (py_or txt (dict_get kvs (u "thinking")))
      then (sts ++ [mk_step Thought t
                      (py_str (py_or txt (dict_get kvs (u "thinking"))))
                      [] None], stack)
      else if is_str ctype "text" && truthy txt
      then (sts ++ [mk_step Result t (py_str txt) [] None], stack)
      else if is_str ctype "toolCall"
      then
        let tool_name := tool_name_of kvs in
        let args := call_args kvs in
        let code := match args with
                    | JNull => []
                    | _ => safe_json args 6000
                    end in
        let idx := length sts in
        (sts ++ [mk_step Action t tool_name code (Some tool_name)],
         idx :: stack)
      else st
  | _ => st
  end.

(** [payload] of a [toolResult] message *)
Definition result_part (c : value) : pystr :=
  if is_text_block c
  then match c with
       | JObj kvs => py_str (dict_get kvs (u "text"))
       | _ => []
       end
  else safe_json c 2000.

Definition nonempty (p : pystr) : bool := negb (Nat.eqb (length p) 0).

Definition result_payload (msg : value) (content : list value) : pystr :=
  let parts := match content with
               | [] => [safe_json msg 4000]
               | _ => map result_part content
               end in
  join [NL; NL] (List.filter nonempty parts).

(** [is_err] *)
Definition is_error (msg : value) (payload : pystr) : outcome bool :=
  e1 <- get msg "error" ;;
  e2 <- get msg "isError" ;;
  Ok (truthy (py_or e1 e2) || re_search (unicode E) ERROR_MARKERS payload).

Definition set_code (s : step) (code : pystr) : step :=
  {| step_type_of := step_type_of s; step_t := step_t s;
     step_text := step_text s; step_code := code; step_tool := step_tool s |}.

(** the [toolResult] branch once [payload] and [is_err] are known *)
Definition tool_result (t : Z) (st : state) (payload : pystr)
    (is_err : bool) : state :=
  let (sts, stack) := st in
  let standalone (stack' : list nat) : state :=
    (sts ++ [mk_step (if is_err then Error else Result) t
               (if is_err then u "Tool error" else u "Tool result")
               payload None], stack') in
  match stack with
  | idx :: stack' =>
      match sts !! idx with
      | Some s =>
          if step_type_eqb (step_type_of s) Action then
            let combined :=
              (if nonempty (step_code s)
               then [u "call:" ++ [NL] ++ step_code s] else [])
              ++ [(if is_err then u "error:" else u "result:")
                  ++ [NL] ++ payload] in
            let sts' := <[idx := set_code s (join [NL; NL] combined)]> sts in
            (if is_err
             then sts' ++ [mk_step Error t (u "Tool error") payload None]
             else sts', stack')
          else standalone stack'
      | None => standalone stack'
      end
  | [] => standalone []
  end.

(** [msg = rec.get("message") or rec] *)
Definition message_of (rec : value) : outcome value :=
  m <- get rec "message" ;;
  Ok (py_or m rec).

(** [role = msg.get("role") or rec.get("role") or "assistant"] *)
Definition role_of (msg rec : value) : outcome value :=
  r <- get msg "role" ;;
  r' <- get rec "role" ;;
  Ok (py_or r (py_or r' (JStr (u "assistant")))).

(** one iteration of [for rec in message_recs] *)
Definition process_record (start_dt : datetime) (st : state) (rec : value)
    : outcome state :=
  msg <- message_of rec ;;
  role <- role_of msg rec ;;
  t <- elapsed start_dt rec ;;
  content <- content_of msg rec ;;
  if is_str role "user" then
    Ok (fold_left (user_block t) content (fst st), snd st)
  else if is_str role "assistant" then
    Ok (fold_left (assistant_block t) content st)
  else if is_str role "toolResult" then
    let payload := result_payload msg content in
    is_err <- is_error msg payload ;;
    Ok (tool_result t st payload is_err)
  else Ok st.

Fixpoint run_records (start_dt : datetime) (st : state) (recs : list value)
    : outcome state :=
  match recs with
  | [] => Ok st
  | rec :: rest =>
      st' <- process_record start_dt st rec ;;
      run_records start_dt st' rest
  end.

(** *** After the loop *)

(** [next((s for s in steps if s.get("type") == "user" and s.get("text")),
    None)] *)
Definition first_user (sts : list step) : option step :=
  find (fun s => step_type_eqb (step_type_of s) User && nonempty (step_text s))
       sts.

(** [(t[:64] + ELLIPSIS) if len(t) > 64 else t] *)
Definition clip_title (t : pystr) : pystr :=
  if (64 <? length t)%nat then firstn 64 t ++ [ELLIPSIS] else t.

Definition title_of (filename_hint : pystr) (sts : list step)
    (session_meta : option (list (pystr * value))) : pystr :=
  match first_user sts with
  | Some s => clip_title (strip (unicode E) (step_text s))
  | None =>
      match session_meta with
      | Some kvs =>
          if truthy (JObj kvs) then
            py_str (py_or (dict_get kvs (u "sessionKey"))
                          (py_or (dict_get kvs (u "key")) (JStr filename_hint)))
          else filename_hint
      | None => filename_hint
      end
  end.

(** [max([float(s.get("t") or 0.0) for s in steps], default=0.0)] *)
Definition duration_of (sts : list step) : Z :=
  match sts with
  | [] => 0%Z
  | s :: rest => fold_left Z.max (map step_t rest) (step_t s)
  end.

Definition recorded_at_of (session_meta : option (list (pystr * value)))
    : value :=
  py_or (match session_meta with
         | Some kvs =>
             if truthy (JObj kvs) then dict_get kvs (u "timestamp") else JNull
         | None => JNull
         end)
        (JStr (isoformat E {| wall := utcnow_recorded E; utcoffset := None |}
               ++ u "Z")).

(** [normalize_openclaw(records, filename_hint)] *)
Definition normalize_openclaw (records : list value) (filename_hint : pystr)
    : outcome session :=
  session_meta <- find_session records ;;
  message_recs <- message_records records ;;
  match message_recs with
  | [] => Raise ValueError
  | first :: _ =>
      start_dt <- start_time first session_meta ;;
      st <- run_records start_dt ([], []) message_recs ;;
      Ok {| title := title_of filename_hint (fst st) session_meta;
            recorded_at := recorded_at_of session_meta;
            duration_seconds := duration_of (fst st);
            steps := fst st |}
  end.

End Script.

(** ** The output document *)

Record out_step := {
  id : pystr;
  out_type : pystr;
  timestamp : value;
  elapsed_seconds : Z;                (* in microseconds, as [step_t] *)
  content : list (pystr * pystr)      (* the content dict, in order *)
}.

Record metadata := {
  meta_title : pystr;
  meta_recorded_at : value;
  meta_duration_seconds : Z;
  meta_agent : list (pystr * pystr);
  meta_tags : list pystr
}.

Record summary := {
  summary_steps : nat;
  tools_used : list pystr;
  errors : nat
}.

Record tape := {
  tape_schema : pystr;
  tape_version : pystr;
  tape_metadata : metadata;
  tape_summary : summary;
  tape_steps : list out_step
}.

(** [a < b] on [str]: code point by code point *)
Fixpoint str_ltb (a b : pystr) : bool :=
  match a, b with
  | _, [] => false
  | [], _ :: _ => true
  | x :: a', y :: b' => (x <? y) || ((x =? y) && str_ltb a' b')
  end.

(** [sorted(l)]: a stable sort, by insertion *)
Fixpoint insert_sorted (x : pystr) (l : list pystr) : list pystr :=
  match l with
  | [] => [x]
  | y :: l' => if str_ltb x y then x :: l else y :: insert_sorted x l'
  end.

Definition sorted (l : list pystr) : list pystr :=
  fold_right insert_sorted [] l.

(** the elements of a set built from [l], each once, in the order of
    their first occurrence *)
Fixpoint py_set (l : list pystr) : list pystr :=
  match l with
  | [] => []
  | x :: l' => x :: List.filter (fun y => negb (str_eqb x y)) (py_set l')
  end.

(** [str(n)] of a non-negative int *)
Definition str_of_nat (n : nat) : pystr :=
  u (NilZero.string_of_uint (Nat.to_uint n)).

Section Build.
Variable E : env.

Definition redact_str (s : pystr) (enabled : bool) : pystr :=
  match redact (unicode E) (Some s) enabled with
  | Some r => r
  | None => []
  end.

(** the names [s.get("tool")] of the action steps that have one *)
Definition action_tools (sts : list step) : list pystr :=
  flat_map (fun s =>
              match step_tool s with
              | Some name =>
                  if step_type_eqb (step_type_of s) Action && nonempty name
                  then [name] else []
              | None => []
              end) sts.

(** the body of the loop of [build_tape_v1] for the step of index [i] *)
Definition build_step (redact_enabled : bool) (i : nat) (s : step)
    : out_step :=
  let stype := step_type_of s in
  let text := redact_str (step_text s) redact_enabled in
  let code := redact_str (step_code s) redact_enabled in
  let tool := match step_tool s with
              | Some name =>
                  if nonempty name then Some (redact_str name redact_enabled)
                  else None
              | None => None
              end in
  let opt (key : string) (v : pystr) := if nonempty v then [(u key, v)] else [] in
  let or_default (v : pystr) (d : string) := if nonempty v then v else u d in
  let content :=
    match stype with
    | Thought | User => [(u "text", text)]
    | Action =>
        [(u "tool", match tool with
                    | Some n => or_default n "tool"%string
                    | None => u "tool"
                    end);
         (u "description", text)] ++ opt "output"%string code
    | Error =>
        [(u "message", or_default text "Error"%string)]
        ++ opt "stack_preview"%string code
    | Result =>
        [(u "description", or_default text "Result"%string)]
        ++ opt "details"%string code
    end in
  {| id := u "step_" ++ str_of_nat (i + 1);
     out_type := type_name stype;
     timestamp := JNull;
     elapsed_seconds := step_t s;
     content := content |}.

(** [build_tape_v1(normalized, redact_enabled)] *)
Definition build_tape_v1 (normalized : session) (redact_enabled : bool)
    : tape :=
  let tools := sorted (py_set (action_tools (steps normalized))) in
  let steps_out := imap (build_step redact_enabled) (steps normalized) in
  let n_errors :=
    length (List.filter (fun s => str_eqb (out_type s) (u "error")) steps_out) in
  {| tape_schema := u "https://the-tape.ai/schemas/tape.schema.json";
     tape_version := u "1.0";
     tape_metadata :=
       {| meta_title := redact_str (title normalized) redact_enabled;
          meta_recorded_at := recorded_at normalized;
          meta_duration_seconds := duration_seconds normalized;
          meta_agent := [(u "name", u "OpenClaw Agent");
                         (u "version", u "unknown")];
          meta_tags := [u "exported"] |};
     tape_summary :=
       {| summary_steps := length steps_out;
          tools_used := tools;
          errors := n_errors |};
     tape_steps := steps_out |}.

End Build.
(** the two calls of [main], between reading the records and writing
    the document *)
Definition convert (E : env) (records : list value) (filename : pystr)
    (redact_enabled : bool) : outcome tape :=
  normalized <- normalize_openclaw E records filename ;;
  Ok (build_tape_v1 E normalized redact_enabled).

(** ** Notions the statements use *)

(** [r] is a record with [type == "session"] *)
Definition is_session (r : value) : bool :=
  match r with
  | JObj kvs => is_str (dict_get kvs (u "type")) "session"
  | _ => false
  end.

(** a user step with a text, the kind of step the title is taken from *)
Definition user_with_text (s : step) : Prop :=
  step_type_of s = User /\ step_text s <> [].

(** some step has the type [error] *)
Definition has_error (sts : list step) : Prop :=
  Exists (fun s => step_type_of s = Error) sts.

(** [recoded a b]: [b] is [a] with some [code] fields rewritten, which
    is all a run may change in the steps it already has *)
Definition same_but_code (x y : step) : Prop :=
  step_type_of y = step_type_of x /\ step_t y = step_t x
  /\ step_text y = step_text x /\ step_tool y = step_tool x.

Definition recoded (a b : list step) : Prop := Forall2 same_but_code a b.

(** [w] is a prefix of [s]; [w in s] *)
Fixpoint prefix_of (w s : pystr) : bool :=
  match w, s with
  | [], _ => true
  | x :: w', y :: s' => (x =? y)%N && prefix_of w' s'
  | _ :: _, [] => false
  end.

Fixpoint contains (w s : pystr) : bool :=
  prefix_of w s || match s with
                   | [] => false
                   | _ :: s' => contains w s'
                   end.

(** the lower case of an ASCII letter; other characters as they are *)
Definition ascii_fold (c : char) : char :=
  if ascii_upper c then (c + 32)%N else c.

(** [s] contains the lower-case ASCII word [w] in some letter case *)
Definition contains_anycase (w : string) (s : pystr) : Prop :=
  exists pre mid post, s = pre ++ mid ++ post /\ map ascii_fold mid = u w.

(** [rec] is a toolResult message whose payload contains Exception, in
    any letter case *)
Definition exception_result (E : env) (rec : value) : Prop :=
  exists msg role content,
    message_of rec = Ok msg
    /\ role_of msg rec = Ok role
    /\ is_str role "toolResult" = true
    /\ content_of msg rec = Ok content
    /\ contains_anycase "exception" (result_payload E msg content).

(** the code of an action step once a result without error is merged
    into it *)
Definition paired_code (code payload : pystr) : pystr :=
  if nonempty code
  then u "call:" ++ [NL] ++ code ++ [NL; NL] ++ u "result:" ++ [NL] ++ payload
  else u "result:" ++ [NL] ++ payload.

(** ** The wording of the specification

    Definitions that follow the sentences of the specification rather
    than the script, to be compared with what the script computes. *)

(** The tool usage summary: the tool names of the action steps, each
    redacted, as a set, sorted. *)
Definition tools_used_spec (E : env) (sts : list step) (enabled : bool)
    : list pystr :=
  sorted (py_set (map (fun name => redact_str E name enabled)
                      (action_tools sts))).

(** The title: the text of the first user step, cut at 64 characters;
    else the session key of the session record; else the file name. *)
Definition title_spec (E : env) (filename : pystr) (sts : list step)
    (session_meta : option (list (pystr * value))) : pystr :=
  match find (fun s => step_type_eqb (step_type_of s) User) sts with
  | Some s => clip_title (step_text s)
  | None =>
      match session_meta with
      | Some kvs => py_str E (dict_get kvs (u "sessionKey"))
      | None => filename
      end
  end.

(** The elapsed time of the steps of a record:
    [max(0, step_timestamp - start_time)], and 0 for a record whose
    timestamp is missing or cannot be parsed. *)
Definition elapsed_spec (E : env) (start_dt : datetime) (rec : value)
    (t : Z) : Prop :=
  exists kvs, rec = JObj kvs /\
    match parse_ts E (dict_get kvs (u "timestamp")) with
    | Some ts => exists d, dt_sub ts start_dt = Ok d /\ t = Z.max 0 d
    | None => t = 0%Z
    end.

(** Pairing: exactly one action step, with a call and a result section
    in its code, and no error step. *)
Definition pairing_spec (sts : list step) : Prop :=
  exists s,
    List.filter (fun x => step_type_eqb (step_type_of x) Action) sts = [s]
    /\ contains (u "call:") (step_code s) = true
    /\ contains (u "result:") (step_code s) = true
    /\ ~ has_error sts.

(** ** Concrete inputs

    [ascii_db] knows no character beyond ASCII; a text of ASCII code
    points never reaches the tables. [example_env] gives the values of
    the library on the timestamps and the one argument payload that the
    inputs below have; they hold no other non-string value. *)

Definition ascii_db : unicode_db :=
  {| uni_isalnum := fun _ => false; uni_isdecimal := fun _ => false;
     uni_isspace := fun _ => false; uni_lower := fun c => c;
     uni_upper := fun c => c; uni_casefix := fun _ => [] |}.

Definition obj (kvs : list (string * value)) : value :=
  JObj (map (fun kv => (u (fst kv), snd kv)) kvs).

Definition str (s : string) : value := JStr (u s).

(** 2024-01-01T00:00:00 in microseconds since 1970-01-01T00:00:00 *)
Definition JAN1 : Z := 1704067200000000.

Definition example_fromisoformat (s : pystr) : option datetime :=
  if str_eqb s (u "2024-01-01T00:00:00")
  then Some {| wall := JAN1; utcoffset := None |}
  else if str_eqb s (u "2024-01-01T00:00:00+00:00")
  then Some {| wall := JAN1; utcoffset := Some 0%Z |}
  else if str_eqb s (u "2024-01-01T00:00:05+00:00")
  then Some {| wall := JAN1 + 5000000; utcoffset := Some 0%Z |}
  else None.

Definition example_env : env :=
  {| unicode := ascii_db;
     json_dumps := fun v =>
       match v with
       | JObj [(k, JStr s)] =>
           if str_eqb k (u "path") && str_eqb s (u "a.txt")
           then Some (u "{" ++ [NL] ++ u "  " ++ [34] ++ u "path" ++ [34]
                      ++ u ": " ++ [34] ++ u "a.txt" ++ [34] ++ [NL] ++ u "}")
           else None
       | _ => None
       end;
     py_repr := fun _ => u "?";
     fromisoformat := example_fromisoformat;
     utcnow_start := JAN1 + 3600000000;
     utcnow_recorded := JAN1 + 3600000001;
     isoformat := fun _ => u "2024-01-01T01:00:00.000001" |}.

(** a message record: [{"type": "message", <fields>, "message": {"role":
    <role>, "content": <content>}}] *)
Definition message (fields : list (string * value)) (role : string)
    (content : list value) : value :=
  (obj (app [("type", str "message")]
            (app fields [("message", obj [("role", str role);
                                          ("content", JList content)])])))%string.

(** a content block [{"type": "text", "text": <s>}] *)
Definition text_block (s : string) : value :=
  (obj [("type", str "text"); ("text", str s)])%string.

(** a bearer token with an equals sign in it *)
Definition bearer_pair : pystr := u "Bearer key=value".

(** a tool call whose tool name has the shape of an e-mail address *)
Definition mail_tool_call : list value :=
  ([message [] "assistant"
      [obj [("type", str "toolCall"); ("name", str "bob@example.com")]]])%string.

(** a record whose [message] is a string *)
Definition string_message : list value :=
  ([obj [("message", str "hello")]])%string.

(** a naive timestamp followed by an aware one *)
Definition mixed_timestamps : list value :=
  ([message [("timestamp", str "2024-01-01T00:00:00")] "user"
      [text_block "hi"];
    message [("timestamp", str "2024-01-01T00:00:05Z")] "assistant"
      [text_block "hello"]])%string.

(** a tool call with 6001 characters of arguments *)
Definition long_call : list (pystr * value) :=
  [(u "type", str "toolCall"); (u "name", str "write");
   (u "args", JStr (repeat 97%N 6001))].

(** a message record with no role, carrying the three kinds of block *)
Definition roleless_record : list (pystr * value) :=
  [(u "type", str "message");
   (u "content",
    JList ([obj [("type", str "thinking"); ("thinking", str "plan")];
            text_block "done";
            obj [("type", str "toolCall"); ("name", str "ls")]])%string)].

(** a prompt with a space before it *)
Definition padded_prompt : list value :=
  ([message [] "user" [text_block " Fix the login bug"]])%string.

(** a session record with a key, and an assistant message *)
Definition keyed_session : list value :=
  ([obj [("type", str "session"); ("sessionKey", str "abc123")];
    message [] "assistant" [text_block "hello"]])%string.

(** a question at 0 s, an answer at 5 s, and a record with no timestamp *)
Definition timed_records : list value :=
  ([message [("timestamp", str "2024-01-01T00:00:00Z")] "user"
      [text_block "hi"];
    message [("timestamp", str "2024-01-01T00:00:05Z")] "assistant"
      [text_block "hello"];
    message [] "assistant" [text_block "bye"]])%string.

(** a tool call answered by a Java exception *)
Definition failing_call : list value :=
  ([message [] "assistant"
      [obj [("type", str "toolCall"); ("name", str "run");
            ("args", str "java Main")]];
    message [] "toolResult"
      [text_block "java.lang.NullPointerException at Main.java:3"]])%string.

(** a tool call without arguments, and its result *)
Definition bare_call : list value :=
  ([message [] "assistant"
      [obj [("type", str "toolCall"); ("name", str "ls")]];
    message [] "toolResult" [text_block "a.txt"]])%string.

(** a tool call with arguments, and its result, five seconds later *)
Definition read_request : value :=
  (message [("timestamp", str "2024-01-01T00:00:00Z")] "assistant"
     [obj [("type", str "toolCall"); ("name", str "read");
           ("args", obj [("path", str "a.txt")])]])%string.

Definition read_response : value :=
  (message [("timestamp", str "2024-01-01T00:00:05Z")] "toolResult"
     [text_block "contents ok"])%string.

Definition read_call : list value := [read_request; read_response].

(** a call whose arguments end in the word Bearer, and its result *)
Definition bearer_call : list value :=
  ([message [] "assistant"
      [obj [("type", str "toolCall"); ("name", str "curl");
            ("args", str "-H Authorization: Bearer")]];
    message [] "toolResult" [text_block "OK"]])%string.

(** [r] is a dict that does not qualify as a message record *)
Definition not_a_message (r : value) : Prop :=
  exists kvs, r = JObj kvs
    /\ is_str (dict_get kvs (u "type")) "message" = false
    /\ truthy (dict_get kvs (u "message")) = false.

(** a session record alone *)
Definition only_session : list value :=
  ([obj [("type", str "session"); ("sessionKey", str "abc123")]])%string.

(** the pending calls of a state are in order: every index on the stack
    is the index of an action step, and the indices decrease from the
    top of the stack down *)
Definition pending_ok (st : state) : Prop :=
  Forall (fun idx => exists s, fst st !! idx = Some s
                               /\ step_type_of s = Action) (snd st)
  /\ StronglySorted (fun i j => (j < i)%nat) (snd st).

(** [y] is [x], or [x] with another code when [x] is an action step *)
Definition merged_into (x y : step) : Prop :=
  same_but_code x y /\ (step_type_of x <> Action -> y = x).

(** the shape of the steps the normalizer makes *)
Definition well_shaped (s : step) : Prop :=
  match step_type_of s with
  | User | Thought => step_code s = [] /\ step_tool s = None
  | Action => step_tool s = Some (step_text s)
  | Result => step_tool s = None
  | Error => step_tool s = None /\ step_text s = u "Tool error"
  end.

(** [rec] is a toolResult message that the error test takes for an
    error *)
Definition erroring_result (E : env) (rec : value) : Prop :=
  exists msg role content,
    message_of rec = Ok msg
    /\ role_of msg rec = Ok role
    /\ is_str role "toolResult" = true
    /\ content_of msg rec = Ok content
    /\ is_error E msg (result_payload E msg content) = Ok true.

(** two calls, then two results *)
Definition two_calls : list value :=
  ([message [] "assistant"
      [obj [("type", str "toolCall"); ("name", str "first")];
       obj [("type", str "toolCall"); ("name", str "second")]];
    message [] "toolResult" [text_block "one"];
    message [] "toolResult" [text_block "no errors found"]])%string.

(** the two calls of [two_calls], and the two results *)
Definition two_calls_head : list value := firstn 1 two_calls.
Definition two_calls_tail : list value := skipn 1 two_calls.

(** a tool result that reports success in words the error test knows *)
Definition calm_fields : list (pystr * value) :=
  [(u "role", str "toolResult");
   (u "content", JList [text_block "no errors found"])].

Definition calm_result : value := JObj calm_fields.

(** [a < b] on [str] *)
Definition str_lt (a b : pystr) : Prop := str_ltb a b = true.

(** the number of steps of type error *)
Definition count_errors (sts : list step) : nat :=
  length (List.filter (fun s => step_type_eqb (step_type_of s) Error) sts).

(** a session with two calls of one tool and a call of another, made by
    hand *)
Definition tools_session : session :=
  {| title := u "t"; recorded_at := JNull; duration_seconds := 0%Z;
     steps := [mk_step Action 0 (u "write") [] (Some (u "write"));
               mk_step Result 0 (u "ok") [] None;
               mk_step Action 0 (u "read") [] (Some (u "read"));
               mk_step Action 0 (u "write") [] (Some (u "write"))] |}.

(** the [text] of a content block *)
Definition block_text (c : value) : value :=
  match c with
  | JObj kvs => dict_get kvs (u "text")
  | _ => JNull
  end.

(** a prompt of blanks only *)
Definition blank_prompt : list value :=
  ([obj [("type", str "session"); ("sessionKey", str "abc123")];
    message [] "user" [text_block "   "]])%string.

(** a user message with a text, an image and a second text *)
Definition mixed_user : value :=
  (message [] "user"
     [text_block "look"; obj [("type", str "image")]; JInt 3;
      text_block "here"])%string.

(** ** Plain prose

    Text written with lower-case ASCII letters, blanks, line ends and the
    marks [. , ; : ! ? ' ( )], in which no 40 letters follow one
    another. *)

Definition alphabet : list char :=
  map (fun k => (97 + N.of_nat k)%N) (seq 0 26) ++ u " .,;:!?'()" ++ [NL].

Definition plain_char (c : char) : bool := existsb (N.eqb c) alphabet.

(** the length of the longest prefix of [s] made of [ok] characters *)
Fixpoint run (ok : char -> bool) (s : pystr) : nat :=
  match s with
  | c :: s' => if ok c then S (run ok s') else O
  | [] => O
  end.

Fixpoint runs_below (n : nat) (ok : char -> bool) (s : pystr) : bool :=
  (run ok s <? n)%nat
  && match s with
     | _ :: s' => runs_below n ok s'
     | [] => true
     end.

Definition prose (s : pystr) : bool :=
  forallb plain_char s && runs_below 40 ascii_lower s.

(** A static test on an expression: every match of it holds a
    character that is not in the alphabet, or 40 letters in a row. *)
Section Needs.
Variable U : unicode_db.

Definition rejects (ic neg : bool) (items : list item) : bool :=
  forallb (fun c => negb (cls_match U ic neg items c)) alphabet.

Definition only_letters (ic neg : bool) (items : list item) : bool :=
  forallb (fun c => implb (cls_match U ic neg items c) (ascii_lower c))
          alphabet.

Fixpoint needs (ic : bool) (r : regex) : bool :=
  match r with
  | Eps | WordB => false
  | Cls neg items => rejects ic neg items
  | Cat r1 r2 => needs ic r1 || needs ic r2
  | Alt r1 r2 => needs ic r1 && needs ic r2
  | Rep _ lo _ neg items =>
      ((0 <? lo)%nat && rejects ic neg items)
      || ((40 <=? lo)%nat && only_letters ic neg items)
  end.

End Needs.

Definition quiet_request : pystr :=
  u "please list the files (all of them), then stop.".

(** * Properties *)

Unset Implicit Arguments.
#[local] Set Warnings "-abstract-large-number".
Local Open Scope nat_scope.

(** ** Strings and small facts *)

Lemma str_eqb_eq (a b : pystr) : str_eqb a b = true <-> a = b.
Proof.
  revert b; induction a as [|x a IH]; intros [|y b]; simpl; split;
    try congruence; try discriminate.
  - intros [Hx Hab]%andb_true_iff. apply N.eqb_eq in Hx.
    apply IH in Hab. congruence.
  - intros [= -> ->]. rewrite N.eqb_refl. simpl. now apply IH.
Qed.

Lemma str_eqb_refl (a : pystr) : str_eqb a a = true.
Proof. now apply str_eqb_eq. Qed.

Lemma is_str_eq (v : value) (s : string) :
  is_str v s = true <-> v = JStr (u s).
Proof.
  destruct v; simpl; split; try discriminate.
  - intros ->%str_eqb_eq. reflexivity.
  - intros [= ->]. apply str_eqb_refl.
Qed.

(** ** Redaction *)

(** C6, as the code has it: with redaction disabled [redact] returns
    what it was given, for every input; [None] comes back as [None] and
    not as the empty string. [None] is read as the empty string only
    when redaction is enabled. *)
Theorem redact_disabled_returns_input (U : unicode_db) (text : option pystr) :
  redact U text false = text
  /\ redact U None true = Some []
  /\ redact U None true = redact U (Some []) true.
Proof. repeat split. Qed.

(** C6, as stated, fails at [None]: the disabled [redact] does not
    return the empty string for it. *)
Lemma redact_disabled_None_is_not_empty :
  redact ascii_db None false <> Some [].
Proof. discriminate. Qed.

(** C2, as stated, fails. The first pass replaces [Bearer key=] and
    leaves the token next to [value]; the second pass reads the token
    and [value] together as a bearer token and replaces both. *)
Lemma redact_twice_differs :
  redact ascii_db (Some bearer_pair) true = Some (u "Bearer REDACTEDvalue")
  /\ redact ascii_db (redact ascii_db (Some bearer_pair) true) true
     = Some (u "Bearer REDACTED")
  /\ redact ascii_db (redact ascii_db (Some bearer_pair) true) true
     <> redact ascii_db (Some bearer_pair) true.
Proof. vm_compute. repeat split. discriminate. Qed.

(** C2, as the code has it: every replacement token is left as it is,
    by each rule taken alone and by [redact] as a whole, so redacting
    a token again changes nothing as long as the token stands alone.
    (The [Bearer] rule does match its own token, and writes the same
    token back.) *)
Theorem redact_keeps_replacement_tokens (U : unicode_db) :
  Forall (fun token =>
            redact U (Some token) true = Some token
            /\ Forall (fun rule => re_sub U (fst rule) (snd rule) token = token)
                      REDACTION_RULES)
         (map snd REDACTION_RULES).
Proof.
  unfold REDACTION_RULES at 2. simpl map.
  repeat (constructor;
          [split;
           [vm_compute; reflexivity
           |unfold REDACTION_RULES;
            repeat (constructor; [vm_compute; reflexivity|]); constructor]
          |]).
  constructor.
Qed.

(** ** Evaluations *)

(** C1 fails on the code: [tools_used] carries the tool name as it was
    recorded, with redaction enabled, while the step itself shows the
    redacted name and the summary of the specification would too. *)
Theorem tools_used_keeps_unredacted_name (E : env) (fn : pystr) :
  exists sess doc,
    normalize_openclaw E mail_tool_call fn = Ok sess
    /\ convert E mail_tool_call fn true = Ok doc
    /\ tools_used (tape_summary doc) = [u "bob@example.com"]
    /\ tools_used_spec E (steps sess) true = [u "[email-redacted]"]
    /\ map content (tape_steps doc)
       = [[(u "tool", u "[email-redacted]");
           (u "description", u "[email-redacted]")]].
Proof.
  eexists. eexists. split; [reflexivity|]. split; [reflexivity|].
  vm_compute. repeat split.
Qed.

(** C3 fails on the code: both inputs consist of message records, and
    normalization raises on each, on the first because the [message]
    field is a string, which has no [get], on the second because a
    naive timestamp is subtracted from an aware one. *)
Theorem normalize_raises_despite_message_records :
  (forall E fn,
      message_records string_message = Ok string_message
      /\ normalize_openclaw E string_message fn = Raise AttributeError)
  /\ (forall fn,
      message_records mixed_timestamps = Ok mixed_timestamps
      /\ normalize_openclaw example_env mixed_timestamps fn = Raise TypeError).
Proof. split; intros; split; reflexivity. Qed.

(** ** Serialized payloads and the blocks of an assistant message *)

Section Blocks.
Variable E : env.

Lemma is_str_toolCall (v : value) :
  is_str v "toolCall" = true ->
  is_str v "thinking" = false /\ is_str v "text" = false.
Proof. intros ->%is_str_eq. split; reflexivity. Qed.

Lemma safe_json_long (v : value) (n : nat) :
  v <> JNull -> n < length (serialize E v) ->
  safe_json E v n = firstn n (serialize E v) ++ TRUNCATED.
Proof.
  intros Hv Hlen. unfold safe_json.
  apply Nat.ltb_lt in Hlen. rewrite Hlen. destruct v; congruence.
Qed.



Lemma assistant_block_toolCall (t : Z) (sts : list step) (stack : list nat)
    (kvs : list (pystr * value)) :
  is_str (dict_get kvs (u "type")) "toolCall" = true ->
  assistant_block E t (sts, stack) (JObj kvs)
  = (sts ++ [mk_step Action t (tool_name_of E kvs)
               (safe_json E (call_args kvs) 6000) (Some (tool_name_of E kvs))],
     length sts :: stack).
Proof.
  intros H. unfold assistant_block.
  destruct (is_str_toolCall _ H) as [-> ->]. rewrite H. simpl.
  destruct (call_args kvs); reflexivity.
Qed.

(** C7: a tool call whose argument payload serializes to more than 6000
    characters is stored, in the action step the call appends, as the
    first 6000 characters followed by the truncation marker; the stored
    payload is 6000 characters plus the 14 of the marker long. *)
Theorem tool_call_payload_truncated (t : Z) (sts : list step)
    (stack : list nat) (kvs : list (pystr * value)) :
  is_str (dict_get kvs (u "type")) "toolCall" = true ->
  call_args kvs <> JNull ->
  6000 < length (serialize E (call_args kvs)) ->
  let code := firstn 6000 (serialize E (call_args kvs)) ++ TRUNCATED in
  assistant_block E t (sts, stack) (JObj kvs)
  = (sts ++ [mk_step Action t (tool_name_of E kvs) code
               (Some (tool_name_of E kvs))],
     length sts :: stack)
  /\ length code = 6000 + length TRUNCATED
  /\ length TRUNCATED = 14.
Proof.
  intros Hty Hargs Hlen code.
  rewrite (assistant_block_toolCall t sts stack kvs Hty).
  rewrite (safe_json_long _ _ Hargs Hlen).
  repeat split. subst code.
  rewrite length_app, length_take. lia.
Qed.
End Blocks.

Lemma tool_call_payload_truncated_witness :
  is_str (dict_get long_call (u "type")) "toolCall" = true
  /\ call_args long_call <> JNull
  /\ 6000 < length (serialize example_env (call_args long_call))
  /\ assistant_block example_env 0 ([], []) (JObj long_call)
     = ([mk_step Action 0 (u "write")
           (firstn 6000 (repeat 97%N 6001) ++ TRUNCATED) (Some (u "write"))],
        [0])
  /\ length (firstn 6000 (repeat 97%N 6001) ++ TRUNCATED) = 6014.
Proof.
  assert (H1 : is_str (dict_get long_call (u "type")) "toolCall" = true)
    by reflexivity.
  assert (H2 : call_args long_call <> JNull) by discriminate.
  assert (H3 : 6000 < length (serialize example_env (call_args long_call)))
    by (vm_compute; lia).
  destruct (tool_call_payload_truncated example_env 0 [] [] long_call H1 H2 H3)
    as (Hblock & Hlen & Hmark).
  split; [exact H1|]. split; [exact H2|]. split; [exact H3|].
  split; [exact Hblock|]. exact Hlen.
Defined.

(** ** Records without a role *)

Section Roles.
Variable E : env.

Lemma dict_get_absent (kvs : list (pystr * value)) (k : pystr) :
  has_key kvs k = false -> dict_get kvs k = JNull.
Proof.
  induction kvs as [|[k' v] kvs IH]; simpl; [reflexivity|].
  intros [Hk Hrest]%orb_false_iff. rewrite Hk. auto.
Qed.

Lemma assistant_block_thinking (t : Z) (sts : list step) (stack : list nat)
    (kvs : list (pystr * value)) :
  is_str (dict_get kvs (u "type")) "thinking" = true ->
  truthy (py_or (dict_get kvs (u "text")) (dict_get kvs (u "thinking")))
  = true ->
  assistant_block E t (sts, stack) (JObj kvs)
  = (sts ++ [mk_step Thought t
               (py_str E (py_or (dict_get kvs (u "text"))
                                (dict_get kvs (u "thinking")))) [] None],
     stack).
Proof. intros Hty Htxt. unfold assistant_block. now rewrite Hty, Htxt. Qed.

Lemma assistant_block_text (t : Z) (sts : list step) (stack : list nat)
    (kvs : list (pystr * value)) :
  is_str (dict_get kvs (u "type")) "text" = true ->
  truthy (dict_get kvs (u "text")) = true ->
  assistant_block E t (sts, stack) (JObj kvs)
  = (sts ++ [mk_step Result t (py_str E (dict_get kvs (u "text"))) [] None],
     stack).
Proof.
  intros Hty Htxt. unfold assistant_block.
  assert (Hth : is_str (dict_get kvs (u "type")) "thinking" = false)
    by (apply is_str_eq in Hty; rewrite Hty; reflexivity).
  now rewrite Hth, Hty, Htxt.
Qed.

(** C10: a message record with no [role] key, neither in its message
    object nor in the record, gets the role [assistant], and its content
    is run through the assistant rules: a thinking block with a text
    appends a thought step, a text block with a text a result step, a
    toolCall block an action step whose index is pushed on the stack. *)
Theorem no_role_is_assistant (start_dt : datetime) (st : state)
    (kvs mkvs : list (pystr * value)) :
  message_of (JObj kvs) = Ok (JObj mkvs) ->
  has_key mkvs (u "role") = false ->
  has_key kvs (u "role") = false ->
  role_of (JObj mkvs) (JObj kvs) = Ok (JStr (u "assistant"))
  /\ process_record E start_dt st (JObj kvs)
     = (t <- elapsed E start_dt (JObj kvs) ;;
        content <- content_of (JObj mkvs) (JObj kvs) ;;
        Ok (fold_left (assistant_block E t) content st))
  /\ (forall t sts stack c,
        is_str (dict_get c (u "type")) "thinking" = true ->
        truthy (py_or (dict_get c (u "text")) (dict_get c (u "thinking")))
        = true ->
        assistant_block E t (sts, stack) (JObj c)
        = (sts ++ [mk_step Thought t
                     (py_str E (py_or (dict_get c (u "text"))
                                      (dict_get c (u "thinking")))) [] None],
           stack))
  /\ (forall t sts stack c,
        is_str (dict_get c (u "type")) "text" = true ->
        truthy (dict_get c (u "text")) = true ->
        assistant_block E t (sts, stack) (JObj c)
        = (sts ++ [mk_step Result t (py_str E (dict_get c (u "text")))
                     [] None],
           stack))
  /\ (forall t sts stack c,
        is_str (dict_get c (u "type")) "toolCall" = true ->
        assistant_block E t (sts, stack) (JObj c)
        = (sts ++ [mk_step Action t (tool_name_of E c)
                     (safe_json E (call_args c) 6000)
                     (Some (tool_name_of E c))],
           length sts :: stack)).
Proof.
  intros Hmsg Hm Hr.
  assert (Hrole : role_of (JObj mkvs) (JObj kvs) = Ok (JStr (u "assistant"))).
  { unfold role_of, get, bind.
    now rewrite (dict_get_absent _ _ Hm), (dict_get_absent _ _ Hr). }
  split; [exact Hrole|]. split.
  - unfold process_record. rewrite Hmsg. cbn [bind].
    rewrite Hrole. cbn [bind].
    destruct (elapsed E start_dt (JObj kvs)) as [t|e]; [|reflexivity].
    cbn [bind].
    destruct (content_of (JObj mkvs) (JObj kvs)) as [content|e];
      reflexivity.
  - repeat split; intros.
    + now apply assistant_block_thinking.
    + now apply assistant_block_text.
    + now apply assistant_block_toolCall.
Qed.
End Roles.

Lemma no_role_is_assistant_witness :
  message_of (JObj roleless_record) = Ok (JObj roleless_record)
  /\ has_key roleless_record (u "role") = false
  /\ process_record example_env (utcnow example_env) ([], [])
       (JObj roleless_record)
     = Ok ([mk_step Thought 0 (u "plan") [] None;
            mk_step Result 0 (u "done") [] None;
            mk_step Action 0 (u "ls") [] (Some (u "ls"))],
           [2]).
Proof.
  assert (H1 : message_of (JObj roleless_record) = Ok (JObj roleless_record))
    by reflexivity.
  assert (H2 : has_key roleless_record (u "role") = false) by reflexivity.
  destruct (no_role_is_assistant example_env (utcnow example_env) ([], [])
              roleless_record roleless_record H1 H2 H2) as (_ & Hrun & _).
  split; [exact H1|]. split; [exact H2|].
  rewrite Hrun. reflexivity.
Defined.

(** ** The title *)

Section Title.
Variable E : env.

Lemma step_type_eqb_eq (a b : step_type) : step_type_eqb a b = true <-> a = b.
Proof. destruct a, b; simpl; split; congruence. Qed.

Lemma nonempty_true (p : pystr) : nonempty p = true <-> p <> [].
Proof.
  destruct p; simpl; split; intros H; try discriminate; try reflexivity.
  now destruct H.
Qed.

Lemma first_user_found (before after : list step) (s : step) :
  Forall (fun x => ~ user_with_text x) before -> user_with_text s ->
  first_user (before ++ s :: after) = Some s.
Proof.
  intros Hb [Hty Htxt]. unfold first_user.
  induction Hb as [|x before Hx Hb IH]; simpl.
  - rewrite Hty. simpl. apply nonempty_true in Htxt. now rewrite Htxt.
  - destruct (step_type_eqb (step_type_of x) User && nonempty (step_text x))
      eqn:Hux; [|exact IH].
    apply andb_true_iff in Hux as [Hu Hn]. exfalso. apply Hx. split.
    + now apply step_type_eqb_eq.
    + now apply nonempty_true.
Qed.

Lemma first_user_none (sts : list step) :
  Forall (fun x => ~ user_with_text x) sts -> first_user sts = None.
Proof.
  intros H. unfold first_user. induction H as [|x sts Hx H IH]; simpl.
  - reflexivity.
  - destruct (step_type_eqb (step_type_of x) User && nonempty (step_text x))
      eqn:Hux; [|exact IH].
    apply andb_true_iff in Hux as [Hu Hn]. exfalso. apply Hx. split.
    + now apply step_type_eqb_eq.
    + now apply nonempty_true.
Qed.

Lemma message_records_dicts (records recs : list value) :
  message_records records = Ok recs ->
  Forall (fun r => exists kvs, r = JObj kvs) records.
Proof.
  revert recs. induction records as [|r records IH]; intros recs H.
  - constructor.
  - simpl in H. destruct r; try discriminate.
    cbn [is_message get bind] in H.
    destruct (message_records records) as [rest|e]; [|discriminate].
    constructor; eauto.
Qed.

Lemma find_session_first (pre post : list value) (kvs : list (pystr * value)) :
  Forall (fun r => exists k, r = JObj k) pre ->
  Forall (fun r => is_session r = false) pre ->
  is_session (JObj kvs) = true ->
  find_session (pre ++ JObj kvs :: post) = Ok (Some kvs).
Proof.
  intros Hd Hn Hs. induction Hd as [|r pre [k ->] Hd IH]; simpl.
  - simpl in Hs. now rewrite Hs.
  - inversion Hn as [|? ? Hr Hn']; subst. simpl in Hr. rewrite Hr. auto.
Qed.

Lemma find_session_none (records : list value) :
  Forall (fun r => exists k, r = JObj k) records ->
  Forall (fun r => is_session r = false) records ->
  find_session records = Ok None.
Proof.
  intros Hd Hn. induction Hd as [|r pre [k ->] Hd IH]; simpl.
  - reflexivity.
  - inversion Hn as [|? ? Hr Hn']; subst. simpl in Hr. rewrite Hr. auto.
Qed.

Lemma session_truthy (kvs : list (pystr * value)) :
  is_session (JObj kvs) = true -> truthy (JObj kvs) = true.
Proof. destruct kvs; [discriminate|reflexivity]. Qed.

Lemma normalize_title (records : list value) (fn : pystr) (sess : session) :
  normalize_openclaw E records fn = Ok sess ->
  exists session_meta recs,
    find_session records = Ok session_meta
    /\ message_records records = Ok recs
    /\ title sess = title_of E fn (steps sess) session_meta.
Proof.
  unfold normalize_openclaw. intros H.
  destruct (find_session records) as [meta|e]; [|discriminate].
  destruct (message_records records) as [recs|e]; [|discriminate].
  cbn [bind] in H. destruct recs as [|first rest]; [discriminate|].
  destruct (start_time E first meta) as [start|e]; [|discriminate].
  cbn [bind] in H.
  destruct (run_records E start ([], []) (first :: rest)) as [st|e];
    [|discriminate].
  cbn [bind] in H. injection H as <-. exists meta, (first :: rest).
  repeat split.
Qed.

(** C8, as the code has it. The title is: the text of the first user
    step that has one, stripped of the white space around it and, when
    what is left is longer than 64 characters, cut to 64 with an
    ellipsis after them; else, when there is a session record, [str] of
    the [sessionKey] of the first one, or of its [key] when it has no
    session key, or the file name when it has neither; else the file
    name. *)
Theorem title_priority (records : list value) (fn : pystr) (sess : session) :
  normalize_openclaw E records fn = Ok sess ->
  (forall before s after,
      steps sess = before ++ s :: after ->
      Forall (fun x => ~ user_with_text x) before ->
      user_with_text s ->
      let t := strip (unicode E) (step_text s) in
      title sess = if 64 <? length t then firstn 64 t ++ [ELLIPSIS] else t)
  /\ (Forall (fun x => ~ user_with_text x) (steps sess) ->
      forall pre kvs post,
        records = pre ++ JObj kvs :: post ->
        Forall (fun r => is_session r = false) pre ->
        is_session (JObj kvs) = true ->
        title sess
        = py_str E (py_or (dict_get kvs (u "sessionKey"))
                          (py_or (dict_get kvs (u "key")) (JStr fn))))
  /\ (Forall (fun x => ~ user_with_text x) (steps sess) ->
      Forall (fun r => is_session r = false) records ->
      title sess = fn).
Proof.
  intros H. destruct (normalize_title _ _ _ H) as (meta & recs & Hmeta & Hrecs & ->).
  pose proof (message_records_dicts _ _ Hrecs) as Hd.
  unfold title_of. repeat split.
  - intros before s after -> Hb Hs. simpl.
    rewrite (first_user_found _ after _ Hb Hs). reflexivity.
  - intros Hno pre kvs post -> Hpre Hk.
    rewrite (first_user_none _ Hno).
    apply Forall_app in Hd as [Hd _].
    rewrite (find_session_first pre post kvs Hd Hpre Hk) in Hmeta.
    injection Hmeta as <-. now rewrite (session_truthy _ Hk).
  - intros Hno Hnone. rewrite (first_user_none _ Hno).
    rewrite (find_session_none _ Hd Hnone) in Hmeta.
    now injection Hmeta as <-.
Qed.

End Title.

(** C8, as stated, fails: the title is taken from the stripped text, so
    a prompt with a space before it does not come back as the title. *)
Lemma title_is_stripped :
  exists sess,
    normalize_openclaw example_env padded_prompt (u "s.jsonl") = Ok sess
    /\ title sess = u "Fix the login bug"
    /\ title_spec example_env (u "s.jsonl") (steps sess) None
       = u " Fix the login bug"
    /\ title sess <> title_spec example_env (u "s.jsonl") (steps sess) None.
Proof.
  eexists. split; [reflexivity|]. vm_compute. repeat split. discriminate.
Qed.

Lemma title_priority_witness :
  exists prompted keyed,
    normalize_openclaw example_env padded_prompt (u "s.jsonl") = Ok prompted
    /\ title prompted = u "Fix the login bug"
    /\ normalize_openclaw example_env keyed_session (u "s.jsonl") = Ok keyed
    /\ title keyed = u "abc123".
Proof.
  destruct (normalize_openclaw example_env padded_prompt (u "s.jsonl"))
    as [prompted|] eqn:Hp; [|discriminate].
  destruct (normalize_openclaw example_env keyed_session (u "s.jsonl"))
    as [keyed|] eqn:Hk; [|discriminate].
  exists prompted, keyed.
  destruct (title_priority example_env _ _ _ Hp) as (Huser & _ & _).
  destruct (title_priority example_env _ _ _ Hk) as (_ & Hkey & _).
  injection Hp as <-. injection Hk as <-.
  split; [reflexivity|]. split.
  - rewrite (Huser [] _ [] eq_refl); [reflexivity|constructor|].
    split; [reflexivity|discriminate].
  - split; [reflexivity|].
    rewrite (Hkey ltac:(repeat constructor; intros [? ?]; discriminate)
               [] _ _ eq_refl); [reflexivity|constructor|reflexivity].
Defined.

(** ** The loop over the message records *)

Section Run.
Variable E : env.

Lemma recoded_refl (a : list step) : recoded a a.
Proof. induction a; constructor; auto. repeat split. Qed.

Lemma recoded_trans (a b c : list step) :
  recoded a b -> recoded b c -> recoded a c.
Proof.
  intros Hab. revert c. induction Hab as [|x y a b Hxy Hab IH]; intros c Hbc.
  - inversion Hbc. constructor.
  - inversion Hbc as [|? z ? c' Hyz Hbc']; subst.
    constructor; [|now apply IH].
    destruct Hxy as (? & ? & ? & ?), Hyz as (? & ? & ? & ?).
    repeat split; congruence.
Qed.

Lemma recoded_insert (sts : list step) (idx : nat) (s : step) (c : pystr) :
  sts !! idx = Some s -> recoded sts (<[idx := set_code s c]> sts).
Proof.
  revert idx. induction sts as [|x sts IH]; intros [|idx] H;
    try discriminate; simpl in *.
  - injection H as ->. constructor; [repeat split|apply recoded_refl].
  - constructor; [repeat split|now apply IH].
Qed.

Lemma recoded_map (f : step -> Z) (a b : list step) :
  (forall x y, same_but_code x y -> f y = f x) ->
  recoded a b -> map f b = map f a.
Proof.
  intros Hf H. induction H as [|x y a b Hxy H IH]; simpl; [reflexivity|].
  now rewrite (Hf _ _ Hxy), IH.
Qed.

Lemma recoded_Exists (P : step -> Prop) (a b : list step) :
  (forall x y, same_but_code x y -> P x -> P y) ->
  recoded a b -> Exists P a -> Exists P b.
Proof.
  intros HP H. induction H as [|x y a b Hxy H IH]; intros Hex;
    inversion Hex; subst.
  - left. eauto.
  - right. auto.
Qed.

Lemma user_blocks_append (t : Z) (content : list value) (sts : list step) :
  exists new,
    fold_left (user_block E t) content sts = sts ++ new
    /\ Forall (fun s => step_t s = t) new.
Proof.
  revert sts. induction content as [|c content IH]; intros sts; simpl.
  - exists []. now rewrite app_nil_r.
  - assert (Hc : exists new, user_block E t sts c = sts ++ new
                             /\ Forall (fun s => step_t s = t) new).
    { unfold user_block. destruct c; try (exists []; now rewrite app_nil_r).
      destruct (is_text_block (JObj kvs)).
      - eexists. split; [reflexivity|]. now repeat constructor.
      - exists []. now rewrite app_nil_r. }
    destruct Hc as (n1 & -> & H1).
    destruct (IH (sts ++ n1)) as (n2 & -> & H2).
    exists (n1 ++ n2). rewrite app_assoc. split; [reflexivity|].
    now apply Forall_app.
Qed.

Lemma assistant_block_appends (t : Z) (st : state) (c : value) :
  exists new,
    fst (assistant_block E t st c) = fst st ++ new
    /\ Forall (fun s => step_t s = t) new.
Proof.
  destruct st as [sts stack]. unfold assistant_block.
  destruct c; try (exists []; simpl; now rewrite app_nil_r).
  repeat match goal with
         | |- context [if ?b then _ else _] => destruct b
         end; simpl;
    try (eexists; split; [reflexivity|]; now repeat constructor);
    exists []; now rewrite app_nil_r.
Qed.

Lemma assistant_blocks_append (t : Z) (content : list value) (st : state) :
  exists new,
    fst (fold_left (assistant_block E t) content st) = fst st ++ new
    /\ Forall (fun s => step_t s = t) new.
Proof.
  revert st. induction content as [|c content IH]; intros st; simpl.
  - exists []. now rewrite app_nil_r.
  - destruct (assistant_block_appends t st c) as (n1 & H1 & F1).
    destruct (IH (assistant_block E t st c)) as (n2 & H2 & F2).
    exists (n1 ++ n2). rewrite H2, H1, app_assoc. split; [reflexivity|].
    now apply Forall_app.
Qed.

(** the steps after a tool result: the old ones, recoded, and at most
    one new step; with an error, an error step is among the new *)
Lemma tool_result_shape (t : Z) (st : state) (payload : pystr) (is_err : bool) :
  exists upd new,
    fst (tool_result t st payload is_err) = upd ++ new
    /\ recoded (fst st) upd
    /\ Forall (fun s => step_t s = t) new
    /\ (is_err = true -> Exists (fun s => step_type_of s = Error) new).
Proof.
  destruct st as [sts stack]. unfold tool_result.
  assert (Hstandalone : forall stack' : list nat,
    exists upd new,
      fst (sts ++ [mk_step (if is_err then Error else Result) t
                     (if is_err then u "Tool error" else u "Tool result")
                     payload None], stack') = upd ++ new
      /\ recoded (fst (sts, stack)) upd
      /\ Forall (fun s => step_t s = t) new
      /\ (is_err = true -> Exists (fun s => step_type_of s = Error) new)).
  { intros stack'. eexists sts, _. split; [reflexivity|].
    split; [apply recoded_refl|]. split; [now repeat constructor|].
    intros ->. now left. }
  destruct stack as [|idx stack']; [apply Hstandalone|].
  destruct (sts !! idx) as [s|] eqn:Hidx; [|apply Hstandalone].
  destruct (step_type_eqb (step_type_of s) Action); [|apply Hstandalone].
  destruct is_err; simpl.
  - eexists _, _. split; [reflexivity|].
    split; [now apply recoded_insert|]. split; [now repeat constructor|].
    intros _. now left.
  - eexists _, []. rewrite app_nil_r. split; [reflexivity|].
    split; [now apply recoded_insert|]. split; [constructor|discriminate].
Qed.

(** one record: the steps it finds are kept (their code apart) and the
    steps it appends carry its elapsed time *)
Lemma process_record_shape (start_dt : datetime) (st st' : state)
    (rec : value) :
  process_record E start_dt st rec = Ok st' ->
  exists t upd new,
    elapsed E start_dt rec = Ok t
    /\ fst st' = upd ++ new
    /\ recoded (fst st) upd
    /\ Forall (fun s => step_t s = t) new.
Proof.
  unfold process_record. intros H.
  destruct (message_of rec) as [msg|]; [|discriminate]. cbn [bind] in H.
  destruct (role_of msg rec) as [role|]; [|discriminate]. cbn [bind] in H.
  destruct (elapsed E start_dt rec) as [t|]; [|discriminate]. cbn [bind] in H.
  destruct (content_of msg rec) as [content|]; [|discriminate].
  cbn [bind] in H. exists t.
  destruct (is_str role "user").
  { injection H as <-. simpl.
    destruct (user_blocks_append t content (fst st)) as (new & -> & Hnew).
    exists (fst st), new. repeat split; auto using recoded_refl. }
  destruct (is_str role "assistant").
  { injection H as <-.
    destruct (assistant_blocks_append t content st) as (new & -> & Hnew).
    exists (fst st), new. repeat split; auto using recoded_refl. }
  destruct (is_str role "toolResult").
  { destruct (is_error E msg (result_payload E msg content)) as [is_err|];
      [|discriminate].
    cbn [bind] in H. injection H as <-.
    destruct (tool_result_shape t st (result_payload E msg content) is_err)
      as (upd & new & -> & Hupd & Hnew & _).
    exists upd, new. repeat split; auto. }
  injection H as <-. exists (fst st), []. rewrite app_nil_r.
  repeat split; auto using recoded_refl.
Qed.

Lemma elapsed_meets_spec (start_dt : datetime) (rec : value) (t : Z) :
  elapsed E start_dt rec = Ok t ->
  elapsed_spec E start_dt rec t /\ (0 <= t)%Z.
Proof.
  unfold elapsed, elapsed_spec. intros H.
  destruct rec; try discriminate. cbn [get bind] in H.
  destruct (parse_ts E (dict_get kvs (u "timestamp"))) as [ts|] eqn:Hts.
  - destruct (dt_sub ts start_dt) as [d|] eqn:Hd; [|discriminate].
    cbn [bind] in H. injection H as <-. split; [|lia].
    exists kvs. split; [reflexivity|]. rewrite Hts. eauto.
  - assert (Hself : dt_sub start_dt start_dt = Ok 0%Z).
    { unfold dt_sub. destruct (utcoffset start_dt); f_equal; lia. }
    rewrite Hself in H. cbn [bind] in H. injection H as <-.
    split; [|reflexivity]. exists kvs. split; [reflexivity|].
    now rewrite Hts.
Qed.

(** the whole loop: the times of the steps, record by record *)
Lemma run_records_times (start_dt : datetime) (recs : list value)
    (st st' : state) :
  run_records E start_dt st recs = Ok st' ->
  exists groups : list (Z * nat),
    Forall2 (fun rec g => elapsed_spec E start_dt rec (fst g)) recs groups
    /\ Forall (fun g => (0 <= fst g)%Z) groups
    /\ map step_t (fst st')
       = map step_t (fst st)
         ++ flat_map (fun g => repeat (fst g) (snd g)) groups.
Proof.
  revert st. induction recs as [|rec recs IH]; intros st H; simpl in H.
  - injection H as <-. exists []. simpl. rewrite app_nil_r.
    repeat split; constructor.
  - destruct (process_record E start_dt st rec) as [st1|] eqn:H1;
      [|discriminate].
    cbn [bind] in H.
    destruct (process_record_shape _ _ _ _ H1) as (t & upd & new & Ht & Hst1 & Hupd & Hnew).
    destruct (IH _ H) as (groups & Hg & Hpos & Hmap).
    destruct (elapsed_meets_spec _ _ _ Ht) as [Hspec Ht0].
    exists ((t, length new) :: groups). split; [constructor; auto|].
    split; [constructor; auto|].
    rewrite Hmap, Hst1, map_app. simpl.
    rewrite (recoded_map step_t _ _ ltac:(intros ? ? (_ & ? & _); auto) Hupd).
    rewrite <- app_assoc. do 2 f_equal.
    clear -Hnew. induction Hnew as [|s new Hs Hnew IH]; simpl; congruence.
Qed.

End Run.

(** ** Elapsed times *)

Lemma normalize_run (E : env) (records : list value) (fn : pystr)
    (sess : session) :
  normalize_openclaw E records fn = Ok sess ->
  exists session_meta first rest start_dt st,
    find_session records = Ok session_meta
    /\ message_records records = Ok (first :: rest)
    /\ start_time E first session_meta = Ok start_dt
    /\ run_records E start_dt ([], []) (first :: rest) = Ok st
    /\ steps sess = fst st.
Proof.
  unfold normalize_openclaw. intros H.
  destruct (find_session records) as [meta|e]; [|discriminate].
  destruct (message_records records) as [recs|e]; [|discriminate].
  cbn [bind] in H. destruct recs as [|first rest]; [discriminate|].
  destruct (start_time E first meta) as [start|e] eqn:Hstart; [|discriminate].
  cbn [bind] in H.
  destruct (run_records E start ([], []) (first :: rest)) as [st|e] eqn:Hrun;
    [|discriminate].
  cbn [bind] in H. injection H as <-.
  exists meta, first, rest, start, st. repeat split; assumption.
Qed.

(** C9: when normalization returns, the elapsed times of its steps are,
    record by record in the order of the message records, copies of the
    record's [max(0, timestamp - start)], which is 0 for a record whose
    timestamp is missing or does not parse; so every step has a
    non-negative time. *)
Theorem step_times (E : env) (records : list value) (fn : pystr)
    (sess : session) :
  normalize_openclaw E records fn = Ok sess ->
  exists session_meta first rest start_dt (groups : list (Z * nat)),
    find_session records = Ok session_meta
    /\ message_records records = Ok (first :: rest)
    /\ start_time E first session_meta = Ok start_dt
    /\ Forall2 (fun rec g => elapsed_spec E start_dt rec (fst g))
               (first :: rest) groups
    /\ map step_t (steps sess)
       = flat_map (fun g => repeat (fst g) (snd g)) groups
    /\ Forall (fun s => (0 <= step_t s)%Z) (steps sess).
Proof.
  intros H.
  destruct (normalize_run _ _ _ _ H)
    as (meta & first & rest & start & st & Hmeta & Hrecs & Hstart & Hrun & Hst).
  destruct (run_records_times _ _ _ _ _ Hrun) as (groups & Hg & Hpos & Hmap).
  exists meta, first, rest, start, groups. rewrite Hst.
  repeat split; auto.
  apply List.Forall_map with (f := step_t) (P := fun t => (0 <= t)%Z).
  rewrite Hmap. simpl. clear -Hpos.
  induction Hpos as [|[t n] groups Ht Hpos IH]; simpl; [constructor|].
  apply Forall_app. split; [|exact IH].
  simpl in Ht. clear -Ht. induction n; simpl; constructor; auto.
Qed.

Lemma step_times_witness :
  exists sess,
    normalize_openclaw example_env timed_records (u "s.jsonl") = Ok sess
    /\ map step_t (steps sess) = [0; 5000000; 0]%Z
    /\ Forall (fun s => (0 <= step_t s)%Z) (steps sess).
Proof.
  destruct (normalize_openclaw example_env timed_records (u "s.jsonl"))
    as [sess|] eqn:H; [|discriminate].
  exists sess.
  destruct (step_times example_env _ _ _ H) as (_ & _ & _ & _ & _ & _ & _ & _ & _ & _ & Hpos).
  split; [reflexivity|]. split; [|exact Hpos].
  injection H as <-. reflexivity.
Defined.

(** ** Errors in tool results *)

Section ErrorMarkers.
Variable U : unicode_db.

(** a lower-case letter of the pattern matches the subject character in
    either case *)
Lemma letter_matches (x c : char) :
  ascii_fold c = x ->
  cls_match U true false [IChar x] x = true ->
  cls_match U true false [IChar x] (x - 32)%N = true ->
  cls_match U true false [IChar x] c = true.
Proof.
  unfold ascii_fold. destruct (ascii_upper c); intros H Hlow Hup.
  - replace c with (x - 32)%N by lia. exact Hup.
  - now subst.
Qed.

Lemma exception_matches (R : Type) (prev : option char) (mid post : pystr)
    (k : option char -> pystr -> option R) :
  map ascii_fold mid = u "exception" ->
  exists last,
    rmatch U true (lit "exception") prev (mid ++ post) k = k (Some last) post.
Proof.
  intros H.
  do 9 (destruct mid as [|? mid]; [discriminate|]).
  destruct mid; [|discriminate].
  cbn [u map] in H. injection H as H1 H2 H3 H4 H5 H6 H7 H8 H9.
  eexists. cbn [lit chr rmatch app].
  repeat match goal with
         | |- context [cls_match U true false [IChar ?x] ?c] =>
             let Hc := fresh in
             assert (Hc : cls_match U true false [IChar x] c = true)
               by (apply letter_matches; [assumption|reflexivity..]);
             rewrite Hc; clear Hc
         end.
  reflexivity.
Qed.

Lemma search_from_eq (p : pattern) (prev : option char) (s : pystr) :
  search_from U p prev s
  = match attempt U p false prev s with
    | Some _ => true
    | None => match s with
              | [] => false
              | c :: s' => search_from U p (Some c) s'
              end
    end.
Proof. destruct s; reflexivity. Qed.

Lemma search_finds_exception (prev : option char) (s : pystr) :
  contains_anycase "exception" s -> search_from U ERROR_MARKERS prev s = true.
Proof.
  intros (pre & mid & post & -> & Hmid). revert prev.
  induction pre as [|c pre IH]; intros prev; rewrite search_from_eq.
  - simpl app.
    destruct (attempt U ERROR_MARKERS false prev (mid ++ post)) eqn:Ha;
      [reflexivity|].
    exfalso. unfold attempt in Ha.
    match type of Ha with
    | rmatch _ _ _ _ _ ?k = None => remember k as k' eqn:Hk
    end.
    unfold ERROR_MARKERS, ignore_case in Ha.
    cbn [pat_re pat_ignorecase rmatch] in Ha.
    destruct (rmatch U true (lit "error") prev (mid ++ post) k');
      [discriminate|].
    destruct (exception_matches _ prev mid post k' Hmid) as (last & Hm).
    rewrite Hm in Ha. subst k'. discriminate.
  - destruct (attempt U ERROR_MARKERS false prev ((c :: pre) ++ mid ++ post));
      [reflexivity|apply IH].
Qed.

End ErrorMarkers.

Section Surfacing.
Variable E : env.

Lemma process_record_keeps_error (start_dt : datetime) (st st' : state)
    (rec : value) :
  process_record E start_dt st rec = Ok st' ->
  has_error (fst st) -> has_error (fst st').
Proof.
  intros H Herr.
  destruct (process_record_shape _ _ _ _ _ H)
    as (t & upd & new & _ & -> & Hupd & _).
  apply Exists_app. left.
  apply (recoded_Exists (fun s => step_type_of s = Error) (fst st) upd);
    [|exact Hupd|exact Herr].
  intros x y (Hty & _) Hx. congruence.
Qed.

Lemma process_record_surfaces (start_dt : datetime) (st st' : state)
    (rec : value) :
  process_record E start_dt st rec = Ok st' ->
  exception_result E rec -> has_error (fst st').
Proof.
  intros H (msg & role & content & Hmsg & Hrole & Htr & Hcontent & Hexc).
  unfold process_record in H. rewrite Hmsg in H. cbn [bind] in H.
  rewrite Hrole in H. cbn [bind] in H.
  destruct (elapsed E start_dt rec) as [t|]; [|discriminate].
  cbn [bind] in H. rewrite Hcontent in H. cbn [bind] in H.
  apply is_str_eq in Htr. subst role.
  change (is_str (JStr (u "toolResult")) "user") with false in H.
  change (is_str (JStr (u "toolResult")) "assistant") with false in H.
  change (is_str (JStr (u "toolResult")) "toolResult") with true in H.
  cbv iota in H.
  assert (Herr : is_error E msg (result_payload E msg content) = Ok true).
  { unfold is_error. destruct msg; try discriminate. cbn [get bind].
    unfold re_search. rewrite (search_finds_exception _ _ _ Hexc).
    now rewrite orb_true_r. }
  rewrite Herr in H. cbn [bind] in H. injection H as <-.
  destruct (tool_result_shape t st (result_payload E msg content) true)
    as (upd & new & -> & _ & _ & Hnew).
  apply Exists_app. right. now apply Hnew.
Qed.

Lemma run_records_keeps_error (start_dt : datetime) (recs : list value)
    (st st' : state) :
  run_records E start_dt st recs = Ok st' ->
  has_error (fst st) -> has_error (fst st').
Proof.
  revert st. induction recs as [|rec recs IH]; intros st H Herr; simpl in H.
  - now injection H as <-.
  - destruct (process_record E start_dt st rec) as [st1|] eqn:H1;
      [|discriminate].
    cbn [bind] in H. eauto using process_record_keeps_error.
Qed.

Lemma run_records_surfaces (start_dt : datetime) (recs : list value)
    (st st' : state) (rec : value) :
  run_records E start_dt st recs = Ok st' ->
  In rec recs -> exception_result E rec -> has_error (fst st').
Proof.
  revert st. induction recs as [|r recs IH]; intros st H Hin Hexc;
    [destruct Hin|].
  simpl in H.
  destruct (process_record E start_dt st r) as [st1|] eqn:H1; [|discriminate].
  cbn [bind] in H. destruct Hin as [->|Hin].
  - eauto using run_records_keeps_error, process_record_surfaces.
  - eauto.
Qed.

Lemma build_steps_keep_error (f : nat -> step -> out_step) (sts : list step) :
  (forall i s, out_type (f i s) = type_name (step_type_of s)) ->
  has_error sts ->
  Exists (fun o => out_type o = u "error") (imap f sts).
Proof.
  intros Hf Herr. revert f Hf.
  induction Herr as [s sts Hs|s sts Herr IH]; intros f Hf; simpl.
  - left. now rewrite Hf, Hs.
  - right. apply IH. intros i x. apply Hf.
Qed.

Lemma count_error_steps (outs : list out_step) :
  Exists (fun o => out_type o = u "error") outs ->
  1 <= length (List.filter (fun o => str_eqb (out_type o) (u "error")) outs).
Proof.
  induction 1 as [o outs Ho|o outs _ IH]; cbn [List.filter].
  - rewrite Ho, str_eqb_refl. cbn [length]. lia.
  - destruct (str_eqb (out_type o) (u "error")); cbn [length]; lia.
Qed.

(** C5: when the message records hold a toolResult whose payload
    contains Exception in any letter case, the session that
    normalization returns has a step of type error, and so has the
    document built from it, whose error count is then at least 1. *)
Theorem exception_is_surfaced (records recs : list value) (rec : value)
    (fn : pystr) (sess : session) (redact_enabled : bool) :
  message_records records = Ok recs ->
  In rec recs ->
  exception_result E rec ->
  normalize_openclaw E records fn = Ok sess ->
  Exists (fun s => step_type_of s = Error) (steps sess)
  /\ Exists (fun o => out_type o = u "error")
            (tape_steps (build_tape_v1 E sess redact_enabled))
  /\ 1 <= errors (tape_summary (build_tape_v1 E sess redact_enabled)).
Proof.
  intros Hrecs Hin Hexc H.
  destruct (normalize_run _ _ _ _ H)
    as (meta & first & rest & start & st & _ & Hrecs' & _ & Hrun & Hst).
  rewrite Hrecs in Hrecs'. injection Hrecs' as ->.
  assert (Herr : has_error (steps sess))
    by (rewrite Hst; eauto using run_records_surfaces).
  assert (Hout : Exists (fun o => out_type o = u "error")
                        (tape_steps (build_tape_v1 E sess redact_enabled)))
    by (apply build_steps_keep_error; [reflexivity|exact Herr]).
  repeat split; [exact Herr|exact Hout|].
  now apply count_error_steps.
Qed.

End Surfacing.

Lemma exception_is_surfaced_witness :
  exists sess,
    normalize_openclaw example_env failing_call (u "s.jsonl") = Ok sess
    /\ map step_type_of (steps sess) = [Action; Error]
    /\ errors (tape_summary (build_tape_v1 example_env sess true)) = 1.
Proof.
  destruct (normalize_openclaw example_env failing_call (u "s.jsonl"))
    as [sess|] eqn:H; [|discriminate].
  exists sess.
  assert (Hrecs : message_records failing_call = Ok failing_call)
    by reflexivity.
  assert (Hin : In (message [] "toolResult"
                      [text_block "java.lang.NullPointerException at Main.java:3"])
                   failing_call) by (right; left; reflexivity).
  assert (Hexc : exception_result example_env
                   (message [] "toolResult"
                      [text_block "java.lang.NullPointerException at Main.java:3"])).
  { eexists _, _, _. repeat (split; [reflexivity|]).
    exists (u "java.lang.NullPointer"), (u "Exception"), (u " at Main.java:3").
    split; reflexivity. }
  destruct (exception_is_surfaced example_env _ _ _ _ _ true Hrecs Hin Hexc H)
    as (_ & _ & Hcount).
  split; [reflexivity|].
  injection H as <-. split; [reflexivity|].
  vm_compute. reflexivity.
Defined.

(** ** Pairing a tool call with its result *)

Lemma prefix_of_app (w post : pystr) : prefix_of w (w ++ post) = true.
Proof. induction w; simpl; [reflexivity|]. now rewrite N.eqb_refl. Qed.

Lemma contains_eq (w s : pystr) :
  contains w s
  = prefix_of w s || match s with
                     | [] => false
                     | _ :: s' => contains w s'
                     end.
Proof. destruct s; reflexivity. Qed.

Lemma contains_app (w pre post : pystr) :
  contains w (pre ++ w ++ post) = true.
Proof.
  induction pre as [|c pre IH]; rewrite contains_eq.
  - cbn [app]. now rewrite prefix_of_app.
  - cbn [app]. rewrite IH. apply orb_true_r.
Qed.

Section Pairing.
Variable E : env.

Lemma start_time_elapsed (first : value)
    (session_meta : option (list (pystr * value))) (start_dt : datetime) :
  start_time E first session_meta = Ok start_dt ->
  elapsed E start_dt first = Ok 0%Z.
Proof.
  unfold start_time, elapsed. destruct first; try discriminate.
  cbn [get bind]. intros H.
  assert (Hself : dt_sub start_dt start_dt = Ok 0%Z).
  { unfold dt_sub. destruct (utcoffset start_dt); f_equal; lia. }
  destruct (parse_ts E (dict_get kvs (u "timestamp"))) as [ts|].
  - injection H as ->. now rewrite Hself.
  - now rewrite Hself.
Qed.

Lemma tool_result_merges (t : Z) (s : step) (payload : pystr) :
  step_type_of s = Action ->
  tool_result t ([s], [0]) payload false
  = ([set_code s (paired_code (step_code s) payload)], []).
Proof.
  intros H. unfold tool_result. simpl. rewrite H. simpl.
  unfold paired_code. destruct (nonempty (step_code s)); reflexivity.
Qed.

Lemma is_message_dict (r : value) (b : bool) :
  is_message r = Ok b -> exists kvs, r = JObj kvs.
Proof. destruct r; try discriminate. eauto. Qed.

(** C4, as the code has it. A session of two message records, neither
    of them a session record: an assistant message whose content is one
    toolCall block, then a toolResult message with no error marker,
    whose time can be taken from the start time. Normalization returns
    one step, the action step of the call, at time 0. Its code is the
    serialized arguments under [call:] followed by the payload under
    [result:] when the call has a non-empty argument payload, and the
    payload under [result:] alone when it has none. There is no error
    step, and the document built without redaction shows the same code
    as the output of the step. *)
Theorem call_paired_with_result (r1 r2 m1 m2 role1 role2 : value)
    (c : list (pystr * value)) (content2 : list value)
    (start_dt : datetime) (t2 : Z) (fn : pystr) :
  is_message r1 = Ok true -> is_session r1 = false ->
  is_message r2 = Ok true -> is_session r2 = false ->
  message_of r1 = Ok m1 -> role_of m1 r1 = Ok role1 ->
  is_str role1 "assistant" = true ->
  content_of m1 r1 = Ok [JObj c] ->
  is_str (dict_get c (u "type")) "toolCall" = true ->
  message_of r2 = Ok m2 -> role_of m2 r2 = Ok role2 ->
  is_str role2 "toolResult" = true ->
  content_of m2 r2 = Ok content2 ->
  is_error E m2 (result_payload E m2 content2) = Ok false ->
  start_time E r1 None = Ok start_dt ->
  elapsed E start_dt r2 = Ok t2 ->
  let name := tool_name_of E c in
  let code := safe_json E (call_args c) 6000 in
  let merged := paired_code code (result_payload E m2 content2) in
  exists sess,
    normalize_openclaw E [r1; r2] fn = Ok sess
    /\ steps sess = [mk_step Action 0 name merged (Some name)]
    /\ ~ has_error (steps sess)
    /\ contains (u "result:") merged = true
    /\ (code <> [] -> contains (u "call:") merged = true)
    /\ (code = [] -> merged = u "result:" ++ [NL] ++ result_payload E m2 content2)
    /\ map content (tape_steps (build_tape_v1 E sess false))
       = [[(u "tool", if nonempty name then name else u "tool");
           (u "description", name); (u "output", merged)]].
Proof.
  intros Hmsg1 Hs1 Hmsg2 Hs2 Hm1 Hrole1 Ha Hc1 Hcall Hm2 Hrole2 Htr Hc2 Herr
         Hstart Ht2 name code merged.
  destruct (is_message_dict _ _ Hmsg1) as [k1 ->].
  destruct (is_message_dict _ _ Hmsg2) as [k2 ->].
  apply is_str_eq in Ha, Htr. subst role1 role2.
  assert (Hrun : run_records E start_dt ([], []) [JObj k1; JObj k2]
                 = Ok ([mk_step Action 0 name merged (Some name)], [])).
  { cbn [run_records]. unfold process_record at 1.
    rewrite Hm1. cbn [bind]. rewrite Hrole1. cbn [bind].
    rewrite (start_time_elapsed _ _ _ Hstart). cbn [bind].
    rewrite Hc1. cbn [bind].
    change (is_str (JStr (u "assistant")) "user") with false.
    change (is_str (JStr (u "assistant")) "assistant") with true.
    cbv iota. cbn [fold_left].
    rewrite (assistant_block_toolCall E 0 [] [] c Hcall).
    cbn [bind app length]. unfold process_record.
    rewrite Hm2. cbn [bind]. rewrite Hrole2. cbn [bind].
    rewrite Ht2. cbn [bind]. rewrite Hc2. cbn [bind].
    change (is_str (JStr (u "toolResult")) "user") with false.
    change (is_str (JStr (u "toolResult")) "assistant") with false.
    change (is_str (JStr (u "toolResult")) "toolResult") with true.
    cbv iota. rewrite Herr. cbn [bind run_records].
    rewrite tool_result_merges by reflexivity. reflexivity. }
  assert (Hnorm : normalize_openclaw E [JObj k1; JObj k2] fn
                  = Ok {| title := title_of E fn [mk_step Action 0 name merged
                                                   (Some name)] None;
                          recorded_at := recorded_at_of E None;
                          duration_seconds :=
                            duration_of [mk_step Action 0 name merged (Some name)];
                          steps := [mk_step Action 0 name merged (Some name)] |}).
  { unfold normalize_openclaw. cbn [find_session].
    unfold is_session in Hs1, Hs2. rewrite Hs1, Hs2.
    cbn [bind message_records].
    rewrite Hmsg1, Hmsg2. cbn [bind].
    rewrite Hstart. cbn [bind]. rewrite Hrun. reflexivity. }
  eexists. split; [exact Hnorm|]. cbn [steps].
  assert (Hres : contains (u "result:") merged = true).
  { unfold merged, paired_code. destruct (nonempty code).
    - pose proof (contains_app (u "result:")
                    (u "call:" ++ [NL] ++ code ++ [NL; NL])
                    ([NL] ++ result_payload E m2 content2)) as Hin.
      rewrite <- !app_assoc in Hin. exact Hin.
    - apply (contains_app _ []). }
  split; [reflexivity|]. split.
  { intros Hex. inversion Hex as [? ? Hty|? ? Hex']; subst;
      [discriminate|inversion Hex']. }
  split; [exact Hres|]. split.
  { intros Hcode. unfold merged, paired_code.
    apply nonempty_true in Hcode. rewrite Hcode. apply (contains_app _ []). }
  split.
  { intros Hcode. unfold merged, paired_code. now rewrite Hcode. }
  unfold build_tape_v1. cbn [steps imap map tape_steps content build_step
                              step_type_of step_text step_code step_tool mk_step].
  unfold redact_str. cbn [redact negb].
  assert (Hne : nonempty merged = true).
  { unfold merged, paired_code. destruct (nonempty code); reflexivity. }
  rewrite Hne. destruct (nonempty name) eqn:Hn; cbn; rewrite ?Hn; reflexivity.
Qed.

End Pairing.

(** C4, as stated, fails: a call without arguments leaves no [call:]
    section in the code of its action step. *)
Lemma bare_call_has_no_call_section :
  exists sess,
    normalize_openclaw example_env bare_call (u "s.jsonl") = Ok sess
    /\ steps sess
       = [mk_step Action 0 (u "ls") (u "result:" ++ [NL] ++ u "a.txt")
            (Some (u "ls"))]
    /\ map content (tape_steps (build_tape_v1 example_env sess true))
       = [[(u "tool", u "ls"); (u "description", u "ls");
           (u "output", u "result:" ++ [NL] ++ u "a.txt")]]
    /\ ~ pairing_spec (steps sess).
Proof.
  eexists. split; [reflexivity|]. split; [reflexivity|].
  split; [vm_compute; reflexivity|].
  intros (s & Hs & Hcall & _). cbn in Hs. injection Hs as <-.
  vm_compute in Hcall. discriminate.
Qed.

Lemma call_paired_with_result_witness :
  exists sess,
    normalize_openclaw example_env read_call (u "s.jsonl") = Ok sess
    /\ map step_type_of (steps sess) = [Action]
    /\ map step_code (steps sess)
       = [u "call:" ++ [NL] ++ u "{" ++ [NL] ++ u "  " ++ [34%N] ++ u "path"
          ++ [34%N] ++ u ": " ++ [34%N] ++ u "a.txt" ++ [34%N] ++ [NL] ++ u "}"
          ++ [NL; NL] ++ u "result:" ++ [NL] ++ u "contents ok"]
    /\ pairing_spec (steps sess).
Proof.
  edestruct (call_paired_with_result example_env read_request read_response)
    with (fn := u "s.jsonl")
    as (sess & Hnorm & Hsteps & Hnoerr & Hres & Hcall & _);
    [reflexivity..|].
  exists sess. split; [exact Hnorm|]. rewrite Hsteps.
  split; [reflexivity|]. split; [reflexivity|].
  eexists. split; [reflexivity|]. split; [|split].
  - apply Hcall. discriminate.
  - exact Hres.
  - rewrite <- Hsteps. exact Hnoerr.
Defined.

(** With redaction enabled the sections of a paired step need not
    survive in the document: the [Bearer] rule reads across the blank
    line and takes the word [result] for the token. *)
Lemma redaction_can_take_result_section :
  exists sess doc,
    normalize_openclaw example_env bearer_call (u "s.jsonl") = Ok sess
    /\ pairing_spec (steps sess)
    /\ convert example_env bearer_call (u "s.jsonl") true = Ok doc
    /\ map content (tape_steps doc)
       = [[(u "tool", u "curl"); (u "description", u "curl");
           (u "output",
            u "call:" ++ [NL] ++ u "-H Authorization: Bearer REDACTED:"
            ++ [NL] ++ u "OK")]].
Proof.
  eexists. eexists. split; [reflexivity|]. split.
  - eexists. split; [reflexivity|]. split; [reflexivity|].
    split; [reflexivity|].
    intros Hex. inversion Hex as [? ? Hty|? ? Hex']; subst;
      [discriminate|inversion Hex'].
  - split; [reflexivity|]. vm_compute. reflexivity.
Qed.

(** The one check: without a message record normalization raises
    [ValueError]. *)
Lemma no_message_record_raises (E : env) (records : list value) (fn : pystr) :
  message_records records = Ok [] ->
  normalize_openclaw E records fn = Raise ValueError.
Proof.
  intros H. unfold normalize_openclaw. rewrite H.
  assert (Hd := message_records_dicts _ _ H).
  destruct (find_session records) as [meta|e] eqn:Hs; [reflexivity|].
  exfalso. clear H.
  induction Hd as [|r records [k ->] Hd IH]; cbn [find_session] in Hs.
  - discriminate.
  - destruct (is_str (dict_get k (u "type")) "session"); [discriminate|auto].
Qed.

(** * Further properties of the script *)

(** ** [safe_json] and [parse_ts] *)

Section Serialization.
Variable E : env.



Lemma replace_Z_app (a b : pystr) :
  replace_Z (a ++ b) = replace_Z a ++ replace_Z b.
Proof.
  induction a as [|c a IH]; cbn [replace_Z app]; [reflexivity|].
  now rewrite IH, app_assoc.
Qed.

(** X3: a timestamp written with a final Z is parsed as the same
    timestamp written with +00:00; a falsy value is no timestamp. *)
Theorem parse_ts_Z_is_utc (s : pystr) :
  parse_ts E (JStr (s ++ u "Z")) = parse_ts E (JStr (s ++ u "+00:00"))
  /\ parse_ts E JNull = None
  /\ parse_ts E (JStr []) = None.
Proof.
  split; [|split; reflexivity].
  unfold parse_ts.
  assert (Ht : forall w, truthy (JStr (s ++ u w)) = negb (Nat.eqb (length (s ++ u w)) 0))
    by reflexivity.
  rewrite !Ht, !length_app. cbn [py_str].
  rewrite !replace_Z_app.
  destruct s; reflexivity.
Qed.

End Serialization.

(** ** What makes normalization raise *)

Section Raising.
Variable E : env.

Lemma message_records_not_dict (records : list value) (r : value) :
  In r records -> (forall kvs, r <> JObj kvs) ->
  message_records records = Raise AttributeError.
Proof.
  induction records as [|x records IH]; intros Hin Hr; [destruct Hin|].
  cbn [message_records].
  destruct Hin as [->|Hin].
  - destruct r; try reflexivity. now destruct (Hr kvs).
  - rewrite (IH Hin Hr).
    destruct x; reflexivity.
Qed.

Lemma find_session_raises (records : list value) (e : exn) :
  find_session records = Raise e -> e = AttributeError.
Proof.
  induction records as [|r records IH]; cbn [find_session]; [discriminate|].
  destruct r; try (intros [= <-]; reflexivity).
  destruct (is_str (dict_get kvs (u "type")) "session"); [discriminate|exact IH].
Qed.

(** X4: one record that is not a dict, anywhere in the input, makes
    normalization raise [AttributeError], whatever the other records. *)
Theorem not_dict_raises (records : list value) (r : value) (fn : pystr) :
  In r records -> (forall kvs, r <> JObj kvs) ->
  normalize_openclaw E records fn = Raise AttributeError.
Proof.
  intros Hin Hr. unfold normalize_openclaw.
  destruct (find_session records) as [meta|e] eqn:Hs.
  - cbn [bind]. now rewrite (message_records_not_dict records r Hin Hr).
  - cbn [bind]. now rewrite (find_session_raises records e Hs).
Qed.

Lemma message_records_none (records : list value) :
  message_records records = Ok [] <-> Forall not_a_message records.
Proof.
  induction records as [|r records IH]; cbn [message_records].
  - split; [constructor|reflexivity].
  - split.
    + intros H. destruct r; try discriminate.
      cbn [is_message get bind] in H.
      destruct (message_records records) as [rest|]; [|discriminate].
      cbn [bind] in H.
      destruct (is_str (dict_get kvs (u "type")) "message"
                || truthy (dict_get kvs (u "message"))) eqn:Hb; [discriminate|].
      apply orb_false_iff in Hb as [Hty Hm]. injection H as ->.
      constructor; [exists kvs; auto|now apply IH].
    + intros H. inversion H as [|? ? (kvs & -> & Hty & Hm) Hrest]; subst.
      cbn [is_message get bind]. apply IH in Hrest. rewrite Hrest.
      cbn [bind]. now rewrite Hty, Hm.
Qed.

Lemma message_records_raises (records : list value) (e : exn) :
  message_records records = Raise e -> e = AttributeError.
Proof.
  induction records as [|r records IH]; cbn [message_records]; [discriminate|].
  destruct r; try (intros [= <-]; reflexivity).
  cbn [is_message get bind].
  destruct (message_records records) as [rest|e']; cbn [bind]; [discriminate|].
  intros [= <-]. now apply IH.
Qed.

Lemma elapsed_raises (start_dt : datetime) (rec : value) (e : exn) :
  elapsed E start_dt rec = Raise e -> e <> ValueError.
Proof.
  unfold elapsed. destruct rec; cbn [get bind]; try (intros [= <-]; discriminate).
  destruct (dt_sub _ start_dt) as [d|e'] eqn:Hd; cbn [bind]; [discriminate|].
  intros [= <-]. unfold dt_sub in Hd.
  destruct (utcoffset _), (utcoffset start_dt); try discriminate;
    injection Hd as <-; discriminate.
Qed.

Lemma process_record_raises (start_dt : datetime) (st : state) (rec : value)
    (e : exn) :
  process_record E start_dt st rec = Raise e -> e <> ValueError.
Proof.
  unfold process_record, message_of, role_of, content_of, is_error.
  destruct rec; cbn [get bind]; try (intros [= <-]; discriminate).
  destruct (py_or (dict_get kvs (u "message")) (JObj kvs)) as [| | | | | |mkvs];
    cbn [get bind]; try (intros [= <-]; discriminate).
  destruct (elapsed E start_dt (JObj kvs)) as [t|e'] eqn:Ht; cbn [bind].
  - destruct (dict_get mkvs (u "content")); cbn [bind];
      repeat match goal with
             | |- context [if ?b then _ else _] => destruct b
             end; discriminate.
  - intros [= <-]. eapply elapsed_raises, Ht.
Qed.

Lemma run_records_raises (start_dt : datetime) (recs : list value)
    (st : state) (e : exn) :
  run_records E start_dt st recs = Raise e -> e <> ValueError.
Proof.
  revert st. induction recs as [|rec recs IH]; intros st; cbn [run_records];
    [discriminate|].
  destruct (process_record E start_dt st rec) as [st1|e1] eqn:H1; cbn [bind].
  - apply IH.
  - intros [= <-]. eapply process_record_raises, H1.
Qed.

(** X5: normalization raises [ValueError] exactly when every record is
    a dict and none qualifies as a message record (an empty input
    included). *)
Theorem ValueError_iff_no_message (records : list value) (fn : pystr) :
  normalize_openclaw E records fn = Raise ValueError
  <-> Forall not_a_message records.
Proof.
  split.
  - unfold normalize_openclaw. intros H.
    destruct (find_session records) as [meta|e] eqn:Hs; cbn [bind] in H.
    2:{ injection H as ->. now apply find_session_raises in Hs. }
    destruct (message_records records) as [recs|e] eqn:Hm; cbn [bind] in H.
    2:{ injection H as ->. now apply message_records_raises in Hm. }
    destruct recs as [|first rest]; [now apply message_records_none|].
    exfalso.
    destruct (start_time E first meta) as [start|e] eqn:Hst; cbn [bind] in H.
    2:{ injection H as ->. unfold start_time in Hst.
        destruct first; discriminate. }
    destruct (run_records E start ([], []) (first :: rest)) as [st|e] eqn:Hr;
      cbn [bind] in H; [discriminate|].
    injection H as ->. now apply run_records_raises in Hr.
  - intros H. apply no_message_record_raises. now apply message_records_none.
Qed.

End Raising.

Lemma ValueError_iff_no_message_witness :
  Forall not_a_message only_session
  /\ normalize_openclaw example_env only_session (u "s.jsonl")
     = Raise ValueError.
Proof.
  assert (H : Forall not_a_message only_session).
  { constructor; [|constructor]. eexists. repeat split. }
  split; [exact H|].
  apply (proj2 (ValueError_iff_no_message example_env only_session
                  (u "s.jsonl")) H).
Defined.

Lemma not_dict_raises_witness :
  In (JInt 3) (text_block "hi" :: JInt 3 :: nil)
  /\ normalize_openclaw example_env (text_block "hi" :: JInt 3 :: nil)
       (u "s.jsonl") = Raise AttributeError.
Proof.
  assert (Hin : In (JInt 3) (text_block "hi" :: JInt 3 :: nil))
    by (right; left; reflexivity).
  split; [exact Hin|].
  apply (not_dict_raises example_env _ (JInt 3) (u "s.jsonl") Hin).
  discriminate.
Defined.

(** ** Invariants of the loop *)

Section Invariants.
Variable E : env.

Lemma pending_ok_bound (sts : list step) (stack : list nat) :
  pending_ok (sts, stack) -> Forall (fun idx => idx < length sts) stack.
Proof.
  intros [H _]. cbn [fst snd] in H.
  eapply List.Forall_impl; [|exact H].
  intros idx (s & Hs & _). now apply lookup_lt_Some in Hs.
Qed.

Lemma pending_ok_app (sts new : list step) (stack : list nat) :
  pending_ok (sts, stack) -> pending_ok (sts ++ new, stack).
Proof.
  intros [H Hs]. split; [|exact Hs]. cbn [fst snd] in *.
  eapply List.Forall_impl; [|exact H].
  intros idx (s & Hl & Hty). exists s. split; [|exact Hty].
  now apply lookup_app_l_Some.
Qed.

Lemma pending_ok_push (sts : list step) (stack : list nat) (s : step) :
  step_type_of s = Action ->
  pending_ok (sts, stack) -> pending_ok (sts ++ [s], length sts :: stack).
Proof.
  intros Hty Hok. pose proof (pending_ok_bound _ _ Hok) as Hb.
  destruct (pending_ok_app sts [s] stack Hok) as [H Hs].
  split; cbn [fst snd] in *.
  - constructor; [|exact H]. exists s. split; [|exact Hty].
    rewrite lookup_app_r by lia. now rewrite Nat.sub_diag.
  - constructor; [exact Hs|exact Hb].
Qed.

Lemma pending_ok_pop (sts : list step) (stack : list nat) (idx : nat)
    (s : step) (c : pystr) :
  sts !! idx = Some s ->
  pending_ok (sts, idx :: stack) ->
  pending_ok (<[idx := set_code s c]> sts, stack).
Proof.
  intros Hidx [H Hs]. cbn [fst snd] in *.
  inversion H as [|? ? _ Hrest]; subst.
  inversion Hs as [|? ? Hs' Hlt]; subst.
  split; [|exact Hs']. cbn [fst snd].
  rewrite List.Forall_forall in Hrest, Hlt. apply List.Forall_forall.
  intros j Hj. destruct (Hrest j Hj) as (x & Hx & Hty).
  exists x. split; [|exact Hty].
  rewrite list_lookup_insert_ne; [exact Hx|].
  specialize (Hlt j Hj). lia.
Qed.

Lemma pending_ok_tail (sts : list step) (stack : list nat) (idx : nat) :
  pending_ok (sts, idx :: stack) -> pending_ok (sts, stack).
Proof.
  intros [H Hs]. cbn [fst snd] in *.
  inversion H; subst. inversion Hs; subst. now split.
Qed.

Lemma assistant_block_pending (t : Z) (st : state) (c : value) :
  pending_ok st -> pending_ok (assistant_block E t st c).
Proof.
  destruct st as [sts stack]. intros Hok. unfold assistant_block.
  destruct c; try exact Hok.
  repeat match goal with
         | |- context [if ?b then _ else _] => destruct b
         end;
    try exact Hok; try (now apply pending_ok_app).
  now apply pending_ok_push.
Qed.

Lemma assistant_blocks_pending (t : Z) (content : list value) (st : state) :
  pending_ok st -> pending_ok (fold_left (assistant_block E t) content st).
Proof.
  revert st. induction content as [|c content IH]; intros st Hok;
    cbn [fold_left]; [exact Hok|].
  now apply IH, assistant_block_pending.
Qed.

Lemma tool_result_pending (t : Z) (st : state) (payload : pystr)
    (is_err : bool) :
  pending_ok st -> pending_ok (tool_result t st payload is_err).
Proof.
  destruct st as [sts stack]. intros Hok. unfold tool_result.
  destruct stack as [|idx stack]; [now apply pending_ok_app|].
  destruct (sts !! idx) as [s|] eqn:Hidx;
    [|now apply pending_ok_app, (pending_ok_tail _ _ idx)].
  destruct (step_type_eqb (step_type_of s) Action);
    [|now apply pending_ok_app, (pending_ok_tail _ _ idx)].
  destruct is_err; [apply pending_ok_app|]; now apply pending_ok_pop.
Qed.

Lemma process_record_pending (start_dt : datetime) (st st' : state)
    (rec : value) :
  process_record E start_dt st rec = Ok st' ->
  pending_ok st -> pending_ok st'.
Proof.
  unfold process_record. intros H Hok.
  destruct (message_of rec) as [msg|]; [|discriminate]. cbn [bind] in H.
  destruct (role_of msg rec) as [role|]; [|discriminate]. cbn [bind] in H.
  destruct (elapsed E start_dt rec) as [t|]; [|discriminate]. cbn [bind] in H.
  destruct (content_of msg rec) as [content|]; [|discriminate].
  cbn [bind] in H.
  destruct (is_str role "user").
  { injection H as <-. destruct st as [sts stack]. cbn [fst snd].
    destruct (user_blocks_append E t content sts) as (new & -> & _).
    now apply pending_ok_app. }
  destruct (is_str role "assistant").
  { injection H as <-. now apply assistant_blocks_pending. }
  destruct (is_str role "toolResult"); [|now injection H as <-].
  destruct (is_error E msg (result_payload E msg content)) as [is_err|];
    [|discriminate].
  cbn [bind] in H. injection H as <-. now apply tool_result_pending.
Qed.

Lemma run_records_pending (start_dt : datetime) (recs : list value)
    (st st' : state) :
  run_records E start_dt st recs = Ok st' ->
  pending_ok st -> pending_ok st'.
Proof.
  revert st. induction recs as [|rec recs IH]; intros st H Hok;
    cbn [run_records] in H.
  - now injection H as <-.
  - destruct (process_record E start_dt st rec) as [st1|] eqn:H1;
      [|discriminate].
    cbn [bind] in H. eauto using process_record_pending.
Qed.

(** X6: at every point of the loop the pending calls are in order
    (each index on the stack is that of an action step, and the indices
    are distinct and decrease from the top), so the next tool result,
    when a call is pending, is always merged into the step of the most
    recent pending call: the test on the popped index never fails and
    the standalone step is made only with an empty stack. *)
Theorem pending_calls_are_actions (start_dt : datetime) (recs : list value)
    (st : state) :
  run_records E start_dt ([], []) recs = Ok st ->
  pending_ok st
  /\ forall t payload is_err idx rest,
       snd st = idx :: rest ->
       exists s code,
         fst st !! idx = Some s
         /\ step_type_of s = Action
         /\ tool_result t st payload is_err
            = (<[idx := set_code s code]> (fst st)
               ++ (if is_err
                   then [mk_step Error t (u "Tool error") payload None]
                   else []),
               rest).
Proof.
  intros H.
  assert (Hok : pending_ok st).
  { apply (run_records_pending _ _ _ _ H). split; constructor. }
  split; [exact Hok|].
  intros t payload is_err idx rest Hst.
  destruct st as [sts stack]. cbn [fst snd] in *. subst stack.
  destruct Hok as [Hall _]. cbn [fst snd] in Hall.
  inversion Hall as [|? ? (s & Hs & Hty) _]; subst.
  exists s.
  destruct is_err; eexists; (split; [exact Hs|]); (split; [exact Hty|]);
    unfold tool_result; rewrite Hs, Hty; cbn [step_type_eqb];
    [reflexivity|now rewrite app_nil_r].
Qed.

Lemma merged_into_refl (sts : list step) : Forall2 merged_into sts sts.
Proof.
  induction sts; constructor; auto. split; [repeat split|reflexivity].
Qed.

Lemma merged_into_trans (a b c : list step) :
  Forall2 merged_into a b -> Forall2 merged_into b c ->
  Forall2 merged_into a c.
Proof.
  intros Hab. revert c. induction Hab as [|x y a b Hxy Hab IH]; intros c Hbc.
  - inversion Hbc. constructor.
  - inversion Hbc as [|? z ? c' Hyz Hbc']; subst.
    constructor; [|now apply IH].
    destruct Hxy as ((Hty & ? & ? & ?) & Hx), Hyz as ((? & ? & ? & ?) & Hy).
    split; [repeat split; congruence|].
    intros Hn. rewrite (Hy ltac:(congruence)). now apply Hx.
Qed.

Lemma merged_into_insert (sts : list step) (idx : nat) (s : step)
    (c : pystr) :
  sts !! idx = Some s -> step_type_of s = Action ->
  Forall2 merged_into sts (<[idx := set_code s c]> sts).
Proof.
  revert idx. induction sts as [|x sts IH]; intros [|idx] H Hty;
    try discriminate; cbn in *.
  - injection H as ->. constructor; [|apply merged_into_refl].
    split; [repeat split|congruence].
  - constructor; [split; [repeat split|reflexivity]|now apply IH].
Qed.

Lemma tool_result_merges_into (t : Z) (st : state) (payload : pystr)
    (is_err : bool) :
  exists upd new,
    fst (tool_result t st payload is_err) = upd ++ new
    /\ Forall2 merged_into (fst st) upd.
Proof.
  destruct st as [sts stack]. unfold tool_result.
  destruct stack as [|idx stack'];
    [eexists sts, _; split; [reflexivity|apply merged_into_refl]|].
  destruct (sts !! idx) as [s|] eqn:Hidx;
    [|eexists sts, _; split; [reflexivity|apply merged_into_refl]].
  destruct (step_type_eqb (step_type_of s) Action) eqn:Hty;
    [|eexists sts, _; split; [reflexivity|apply merged_into_refl]].
  apply step_type_eqb_eq in Hty.
  destruct is_err; cbn [fst].
  - eexists _, _. split; [reflexivity|now apply merged_into_insert].
  - eexists _, []. rewrite app_nil_r.
    split; [reflexivity|now apply merged_into_insert].
Qed.

Lemma process_record_merges_into (start_dt : datetime) (st st' : state)
    (rec : value) :
  process_record E start_dt st rec = Ok st' ->
  exists upd new, fst st' = upd ++ new /\ Forall2 merged_into (fst st) upd.
Proof.
  unfold process_record. intros H.
  destruct (message_of rec) as [msg|]; [|discriminate]. cbn [bind] in H.
  destruct (role_of msg rec) as [role|]; [|discriminate]. cbn [bind] in H.
  destruct (elapsed E start_dt rec) as [t|]; [|discriminate]. cbn [bind] in H.
  destruct (content_of msg rec) as [content|]; [|discriminate].
  cbn [bind] in H.
  destruct (is_str role "user").
  { injection H as <-. cbn [fst].
    destruct (user_blocks_append E t content (fst st)) as (new & -> & _).
    eexists _, _. split; [reflexivity|apply merged_into_refl]. }
  destruct (is_str role "assistant").
  { injection H as <-.
    destruct (assistant_blocks_append E t content st) as (new & -> & _).
    eexists _, _. split; [reflexivity|apply merged_into_refl]. }
  destruct (is_str role "toolResult").
  { destruct (is_error E msg (result_payload E msg content)) as [is_err|];
      [|discriminate].
    cbn [bind] in H. injection H as <-. apply tool_result_merges_into. }
  injection H as <-. exists (fst st), []. rewrite app_nil_r.
  split; [reflexivity|apply merged_into_refl].
Qed.

Lemma run_records_merges_into (start_dt : datetime) (recs : list value)
    (st st' : state) :
  run_records E start_dt st recs = Ok st' ->
  exists upd new, fst st' = upd ++ new /\ Forall2 merged_into (fst st) upd.
Proof.
  revert st. induction recs as [|rec recs IH]; intros st H;
    cbn [run_records] in H.
  - injection H as <-. exists (fst st), []. rewrite app_nil_r.
    split; [reflexivity|apply merged_into_refl].
  - destruct (process_record E start_dt st rec) as [st1|] eqn:H1;
      [|discriminate].
    cbn [bind] in H.
    destruct (process_record_merges_into _ _ _ _ H1) as (u1 & n1 & E1 & M1).
    destruct (IH _ H) as (u2 & n2 & E2 & M2).
    rewrite E1 in M2. apply Forall2_app_inv_l in M2
      as (u2a & u2b & Ma & Mb & ->).
    exists u2a, (u2b ++ n2). rewrite E2, app_assoc. split; [reflexivity|].
    eapply merged_into_trans; eassumption.
Qed.

Lemma run_records_app (start_dt : datetime) (recs1 recs2 : list value)
    (st : state) :
  run_records E start_dt st (recs1 ++ recs2)
  = (st1 <- run_records E start_dt st recs1 ;;
     run_records E start_dt st1 recs2).
Proof.
  revert st. induction recs1 as [|rec recs1 IH]; intros st;
    cbn [run_records app bind]; [reflexivity|].
  destruct (process_record E start_dt st rec); cbn [bind]; auto.
Qed.

(** X7: reading more records never drops or reorders a step made
    before: the steps after a longer run begin with the steps of the
    shorter run, one for one, and only the code of an action step may
    differ; user, thought, result and error steps stay as they were
    made. *)
Theorem earlier_steps_are_kept (start_dt : datetime)
    (recs1 recs2 : list value) (st st2 : state) :
  run_records E start_dt st (recs1 ++ recs2) = Ok st2 ->
  exists st1 upd new,
    run_records E start_dt st recs1 = Ok st1
    /\ fst st2 = upd ++ new
    /\ Forall2 merged_into (fst st1) upd.
Proof.
  rewrite run_records_app. intros H.
  destruct (run_records E start_dt st recs1) as [st1|] eqn:H1; [|discriminate].
  cbn [bind] in H.
  destruct (run_records_merges_into _ _ _ _ H) as (upd & new & Hst & Hm).
  exists st1, upd, new. auto.
Qed.

End Invariants.

Lemma pending_calls_are_actions_witness :
  exists st,
    run_records example_env (utcnow example_env) ([], []) two_calls_head
    = Ok st
    /\ snd st = [1; 0]
    /\ pending_ok st.
Proof.
  destruct (run_records example_env (utcnow example_env) ([], [])
              two_calls_head) as [st|] eqn:H; [|discriminate].
  exists st.
  destruct (pending_calls_are_actions example_env _ _ _ H) as [Hok _].
  split; [reflexivity|]. split; [|exact Hok].
  injection H as <-. reflexivity.
Defined.

Lemma earlier_steps_are_kept_witness :
  exists st1 st2,
    run_records example_env (utcnow example_env) ([], []) two_calls_head
    = Ok st1
    /\ run_records example_env (utcnow example_env) ([], [])
         (two_calls_head ++ two_calls_tail) = Ok st2
    /\ map step_code (fst st1) = [[]; []]
    /\ map step_code (fst st2)
       = [u "error:" ++ [NL] ++ u "no errors found";
          u "result:" ++ [NL] ++ u "one";
          u "no errors found"].
Proof.
  destruct (run_records example_env (utcnow example_env) ([], [])
              (two_calls_head ++ two_calls_tail)) as [st2|] eqn:H;
    [|discriminate].
  destruct (earlier_steps_are_kept example_env _ _ _ _ _ H)
    as (st1 & upd & new & H1 & _ & _).
  exists st1, st2. split; [exact H1|]. split; [reflexivity|].
  injection H as <-. cbv in H1. injection H1 as <-.
  split; reflexivity.
Defined.

(** ** The shape of the steps, and where error steps come from *)

Section Shapes.
Variable E : env.

Lemma well_shaped_insert (sts : list step) (idx : nat) (s : step)
    (c : pystr) :
  sts !! idx = Some s -> step_type_of s = Action ->
  Forall well_shaped sts ->
  Forall well_shaped (<[idx := set_code s c]> sts).
Proof.
  revert idx. induction sts as [|x sts IH]; intros [|idx] H Hty Hall;
    try discriminate; cbn in *; inversion Hall; subst.
  - injection H as ->. constructor; [|assumption].
    unfold well_shaped in *. cbn. now rewrite Hty in *.
  - constructor; [assumption|now apply IH].
Qed.

Lemma user_blocks_shaped (t : Z) (content : list value) (sts : list step) :
  Forall well_shaped sts ->
  Forall well_shaped (fold_left (user_block E t) content sts).
Proof.
  revert sts. induction content as [|c content IH]; intros sts H;
    cbn [fold_left]; [exact H|].
  apply IH. unfold user_block. destruct c; try exact H.
  destruct (is_text_block (JObj kvs)); [|exact H].
  apply Forall_app. split; [exact H|]. now repeat constructor.
Qed.

Lemma assistant_blocks_shaped (t : Z) (content : list value) (st : state) :
  Forall well_shaped (fst st) ->
  Forall well_shaped (fst (fold_left (assistant_block E t) content st)).
Proof.
  revert st. induction content as [|c content IH]; intros st H;
    cbn [fold_left]; [exact H|].
  apply IH. destruct st as [sts stack]. unfold assistant_block.
  destruct c; try exact H.
  repeat match goal with
         | |- context [if ?b then _ else _] => destruct b
         end; cbn [fst] in *; try exact H;
    (apply Forall_app; split; [exact H|]; now repeat constructor).
Qed.

Lemma tool_result_shaped (t : Z) (st : state) (payload : pystr)
    (is_err : bool) :
  Forall well_shaped (fst st) ->
  Forall well_shaped (fst (tool_result t st payload is_err)).
Proof.
  destruct st as [sts stack]. cbn [fst]. intros H. unfold tool_result.
  assert (Hs : forall stack' : list nat,
             Forall well_shaped
               (fst (sts ++ [mk_step (if is_err then Error else Result) t
                               (if is_err then u "Tool error"
                                else u "Tool result") payload None],
                     stack'))).
  { intros stack'. cbn [fst]. apply Forall_app. split; [exact H|].
    destruct is_err; now repeat constructor. }
  destruct stack as [|idx stack']; [apply Hs|].
  destruct (sts !! idx) as [s|] eqn:Hidx; [|apply Hs].
  destruct (step_type_eqb (step_type_of s) Action) eqn:Hty; [|apply Hs].
  apply step_type_eqb_eq in Hty.
  destruct is_err; cbn [fst].
  - apply Forall_app. split; [now apply well_shaped_insert|].
    now repeat constructor.
  - now apply well_shaped_insert.
Qed.

Lemma run_records_shaped (start_dt : datetime) (recs : list value)
    (st st' : state) :
  run_records E start_dt st recs = Ok st' ->
  Forall well_shaped (fst st) -> Forall well_shaped (fst st').
Proof.
  revert st. induction recs as [|rec recs IH]; intros st H Hsh;
    cbn [run_records] in H; [now injection H as <-|].
  destruct (process_record E start_dt st rec) as [st1|] eqn:H1;
    [|discriminate].
  cbn [bind] in H. apply (IH _ H). clear H IH.
  unfold process_record in H1.
  destruct (message_of rec) as [msg|]; [|discriminate]. cbn [bind] in H1.
  destruct (role_of msg rec) as [role|]; [|discriminate]. cbn [bind] in H1.
  destruct (elapsed E start_dt rec) as [t|]; [|discriminate].
  cbn [bind] in H1.
  destruct (content_of msg rec) as [content|]; [|discriminate].
  cbn [bind] in H1.
  destruct (is_str role "user").
  { injection H1 as <-. now apply user_blocks_shaped. }
  destruct (is_str role "assistant").
  { injection H1 as <-. now apply assistant_blocks_shaped. }
  destruct (is_str role "toolResult"); [|now injection H1 as <-].
  destruct (is_error E msg (result_payload E msg content)) as [is_err|];
    [|discriminate].
  cbn [bind] in H1. injection H1 as <-. now apply tool_result_shaped.
Qed.

(** X8: every step of a normalized session has the shape of its type:
    a user or thought step has no code and no tool; an action step has
    a tool, equal to its text; a result step has no tool; an error step
    has no tool and the text [Tool error]. *)
Theorem steps_are_well_shaped (records : list value) (fn : pystr)
    (sess : session) :
  normalize_openclaw E records fn = Ok sess ->
  Forall well_shaped (steps sess).
Proof.
  intros H.
  destruct (normalize_run _ _ _ _ H)
    as (meta & first & rest & start & st & _ & _ & _ & Hrun & ->).
  apply (run_records_shaped _ _ _ _ Hrun). constructor.
Qed.

(** *** Error steps *)

Lemma has_error_insert (sts : list step) (idx : nat) (s : step) (c : pystr) :
  sts !! idx = Some s ->
  has_error (<[idx := set_code s c]> sts) -> has_error sts.
Proof.
  intros Hidx Herr.
  pose proof (recoded_insert sts idx s c Hidx) as Hrec.
  clear -Hrec Herr. unfold has_error in *.
  induction Hrec as [|x y a b Hxy Hrec IH]; inversion Herr; subst.
  - left. destruct Hxy as (Hty & _). congruence.
  - right. auto.
Qed.

Lemma has_error_app (a b : list step) :
  has_error (a ++ b) <-> has_error a \/ has_error b.
Proof. apply Exists_app. Qed.

Lemma user_blocks_no_error (t : Z) (content : list value) (sts : list step) :
  has_error (fold_left (user_block E t) content sts) -> has_error sts.
Proof.
  revert sts. induction content as [|c content IH]; intros sts H;
    cbn [fold_left] in H; [exact H|].
  apply IH in H. unfold user_block in H. destruct c; try exact H.
  destruct (is_text_block (JObj kvs)); [|exact H].
  apply has_error_app in H as [H|H]; [exact H|].
  inversion H as [? ? Hty|? ? H']; [discriminate|inversion H'].
Qed.

Lemma assistant_blocks_no_error (t : Z) (content : list value) (st : state) :
  has_error (fst (fold_left (assistant_block E t) content st)) ->
  has_error (fst st).
Proof.
  revert st. induction content as [|c content IH]; intros st H;
    cbn [fold_left] in H; [exact H|].
  apply IH in H. destruct st as [sts stack]. unfold assistant_block in H.
  destruct c; try exact H.
  repeat match type of H with
         | context [if ?b then _ else _] => destruct b
         end; cbn [fst] in *; try exact H;
    (apply has_error_app in H as [H|H]; [exact H|];
     inversion H as [? ? Hty|? ? H']; [discriminate|inversion H']).
Qed.

Lemma tool_result_no_error (t : Z) (st : state) (payload : pystr) :
  has_error (fst (tool_result t st payload false)) -> has_error (fst st).
Proof.
  destruct st as [sts stack]. cbn [fst]. unfold tool_result.
  assert (Hs : forall stack' : list nat,
             has_error (fst (sts ++ [mk_step Result t (u "Tool result")
                                       payload None], stack')) ->
             has_error sts).
  { intros stack' H. cbn [fst] in H.
    apply has_error_app in H as [H|H]; [exact H|].
    inversion H as [? ? Hty|? ? H']; [discriminate|inversion H']. }
  destruct stack as [|idx stack']; [apply Hs|].
  destruct (sts !! idx) as [s|] eqn:Hidx; [|apply Hs].
  destruct (step_type_eqb (step_type_of s) Action); [|apply Hs].
  cbn [fst]. intros H. now apply has_error_insert in H.
Qed.

Lemma run_records_error_source (start_dt : datetime) (recs : list value)
    (st st' : state) :
  run_records E start_dt st recs = Ok st' ->
  has_error (fst st') ->
  has_error (fst st) \/ exists rec, In rec recs /\ erroring_result E rec.
Proof.
  revert st. induction recs as [|rec recs IH]; intros st H Herr;
    cbn [run_records] in H; [injection H as <-; now left|].
  destruct (process_record E start_dt st rec) as [st1|] eqn:H1;
    [|discriminate].
  cbn [bind] in H.
  destruct (IH _ H Herr) as [H1err|(r & Hin & Hr)];
    [|right; exists r; split; [now right|exact Hr]].
  clear H IH Herr. unfold process_record in H1.
  destruct (message_of rec) as [msg|] eqn:Hmsg; [|discriminate].
  cbn [bind] in H1.
  destruct (role_of msg rec) as [role|] eqn:Hrole; [|discriminate].
  cbn [bind] in H1.
  destruct (elapsed E start_dt rec) as [t|]; [|discriminate].
  cbn [bind] in H1.
  destruct (content_of msg rec) as [content|] eqn:Hcontent; [|discriminate].
  cbn [bind] in H1.
  destruct (is_str role "user").
  { injection H1 as <-. left. cbn [fst] in H1err.
    now apply user_blocks_no_error in H1err. }
  destruct (is_str role "assistant").
  { injection H1 as <-. left. now apply assistant_blocks_no_error in H1err. }
  destruct (is_str role "toolResult") eqn:Htr;
    [|injection H1 as <-; now left].
  destruct (is_error E msg (result_payload E msg content)) as [is_err|]
    eqn:Hiserr; [|discriminate].
  cbn [bind] in H1. injection H1 as <-.
  destruct is_err.
  - right. exists rec. split; [now left|].
    exists msg, role, content. auto.
  - left. now apply tool_result_no_error in H1err.
Qed.

Lemma process_record_erroring (start_dt : datetime) (st st' : state)
    (rec : value) :
  process_record E start_dt st rec = Ok st' ->
  erroring_result E rec -> has_error (fst st').
Proof.
  intros H (msg & role & content & Hmsg & Hrole & Htr & Hcontent & Herr).
  unfold process_record in H. rewrite Hmsg in H. cbn [bind] in H.
  rewrite Hrole in H. cbn [bind] in H.
  destruct (elapsed E start_dt rec) as [t|]; [|discriminate].
  cbn [bind] in H. rewrite Hcontent in H. cbn [bind] in H.
  apply is_str_eq in Htr. subst role.
  change (is_str (JStr (u "toolResult")) "user") with false in H.
  change (is_str (JStr (u "toolResult")) "assistant") with false in H.
  change (is_str (JStr (u "toolResult")) "toolResult") with true in H.
  cbv iota in H. rewrite Herr in H. cbn [bind] in H. injection H as <-.
  destruct (tool_result_shape t st (result_payload E msg content) true)
    as (upd & new & -> & _ & _ & Hnew).
  apply Exists_app. right. now apply Hnew.
Qed.

Lemma run_records_erroring (start_dt : datetime) (recs : list value)
    (st st' : state) (rec : value) :
  run_records E start_dt st recs = Ok st' ->
  In rec recs -> erroring_result E rec -> has_error (fst st').
Proof.
  revert st. induction recs as [|r recs IH]; intros st H Hin Herr;
    [destruct Hin|].
  cbn [run_records] in H.
  destruct (process_record E start_dt st r) as [st1|] eqn:H1; [|discriminate].
  cbn [bind] in H. destruct Hin as [->|Hin].
  - eauto using run_records_keeps_error, process_record_erroring.
  - eauto.
Qed.

(** X9: a normalized session has a step of type error exactly when one
    of its message records is a toolResult that the error test takes
    for an error; user and assistant messages, and tool results that
    pass the test, never make one. *)
Theorem error_steps_come_from_results (records recs : list value)
    (fn : pystr) (sess : session) :
  message_records records = Ok recs ->
  normalize_openclaw E records fn = Ok sess ->
  has_error (steps sess)
  <-> exists rec, In rec recs /\ erroring_result E rec.
Proof.
  intros Hrecs H.
  destruct (normalize_run _ _ _ _ H)
    as (meta & first & rest & start & st & _ & Hrecs' & _ & Hrun & ->).
  rewrite Hrecs in Hrecs'. injection Hrecs' as ->. split.
  - intros Herr.
    destruct (run_records_error_source _ _ _ _ Hrun Herr) as [Hnil|Hex];
      [inversion Hnil|exact Hex].
  - intros (rec & Hin & Hr). eauto using run_records_erroring.
Qed.

End Shapes.

Lemma steps_are_well_shaped_witness :
  exists sess,
    normalize_openclaw example_env two_calls (u "s.jsonl") = Ok sess
    /\ map step_type_of (steps sess) = [Action; Action; Error]
    /\ Forall well_shaped (steps sess).
Proof.
  destruct (normalize_openclaw example_env two_calls (u "s.jsonl"))
    as [sess|] eqn:H; [|discriminate].
  exists sess. split; [reflexivity|].
  split; [injection H as <-; reflexivity|].
  exact (steps_are_well_shaped example_env _ _ _ H).
Defined.

Lemma error_steps_come_from_results_witness :
  exists sess,
    normalize_openclaw example_env read_call (u "s.jsonl") = Ok sess
    /\ ~ has_error (steps sess)
    /\ ~ exists rec, In rec read_call /\ erroring_result example_env rec.
Proof.
  destruct (normalize_openclaw example_env read_call (u "s.jsonl"))
    as [sess|] eqn:H; [|discriminate].
  exists sess. split; [reflexivity|].
  assert (Hrecs : message_records read_call = Ok read_call) by reflexivity.
  pose proof (error_steps_come_from_results example_env _ _ _ _ Hrecs H)
    as Hiff.
  assert (Hno : ~ has_error (steps sess)).
  { injection H as <-. intros Herr.
    inversion Herr as [? ? Hty|? ? Herr']; [discriminate|inversion Herr']. }
  split; [exact Hno|]. intros Hex. apply Hno, Hiff, Hex.
Defined.

(** ** The error test *)

Section ErrorTest.
Variable U : unicode_db.

Ltac match_letters :=
  cbn [lit chr rmatch app];
  repeat match goal with
         | |- context [cls_match U true false [IChar ?x] ?c] =>
             let Hc := fresh in
             assert (Hc : cls_match U true false [IChar x] c = true)
               by (apply letter_matches; [assumption|reflexivity..]);
             rewrite Hc; clear Hc
         end;
  reflexivity.

Lemma error_matches (R : Type) (prev : option char) (mid post : pystr)
    (k : option char -> pystr -> option R) :
  map ascii_fold mid = u "error" ->
  exists last,
    rmatch U true (lit "error") prev (mid ++ post) k = k (Some last) post.
Proof.
  intros H.
  do 5 (destruct mid as [|? mid]; [discriminate|]).
  destruct mid; [|discriminate].
  cbn [u map] in H. injection H as H1 H2 H3 H4 H5.
  eexists. match_letters.
Qed.

Lemma traceback_matches (R : Type) (prev : option char) (mid post : pystr)
    (k : option char -> pystr -> option R) :
  map ascii_fold mid = u "traceback" ->
  exists last,
    rmatch U true (lit "traceback") prev (mid ++ post) k = k (Some last) post.
Proof.
  intros H.
  do 9 (destruct mid as [|? mid]; [discriminate|]).
  destruct mid; [|discriminate].
  cbn [u map] in H. injection H as H1 H2 H3 H4 H5 H6 H7 H8 H9.
  eexists. match_letters.
Qed.

Lemma attempt_finds_marker (prev : option char) (mid post : pystr) :
  map ascii_fold mid = u "error" \/ map ascii_fold mid = u "exception"
  \/ map ascii_fold mid = u "traceback" ->
  attempt U ERROR_MARKERS false prev (mid ++ post) <> None.
Proof.
  intros Hmid Ha. unfold attempt in Ha.
  match type of Ha with
  | rmatch _ _ _ _ _ ?k = None => remember k as k' eqn:Hk
  end.
  unfold ERROR_MARKERS, ignore_case in Ha.
  cbn [pat_re pat_ignorecase rmatch] in Ha.
  destruct Hmid as [Hmid|[Hmid|Hmid]].
  - destruct (error_matches _ prev mid post k' Hmid) as (last & Hm).
    rewrite Hm in Ha. subst k'. discriminate.
  - destruct (rmatch U true (lit "error") prev (mid ++ post) k');
      [discriminate|].
    destruct (exception_matches U _ prev mid post k' Hmid) as (last & Hm).
    rewrite Hm in Ha. subst k'. discriminate.
  - destruct (rmatch U true (lit "error") prev (mid ++ post) k');
      [discriminate|].
    destruct (rmatch U true (lit "exception") prev (mid ++ post) k');
      [discriminate|].
    destruct (traceback_matches _ prev mid post k' Hmid) as (last & Hm).
    rewrite Hm in Ha. subst k'. discriminate.
Qed.

Lemma search_finds_marker (s : pystr) :
  contains_anycase "error" s \/ contains_anycase "exception" s
  \/ contains_anycase "traceback" s ->
  re_search U ERROR_MARKERS s = true.
Proof.
  intros H.
  assert (Hex : exists pre mid post,
             s = pre ++ mid ++ post
             /\ (map ascii_fold mid = u "error"
                 \/ map ascii_fold mid = u "exception"
                 \/ map ascii_fold mid = u "traceback")).
  { destruct H as [H|[H|H]]; destruct H as (pre & mid & post & Hs & Hm);
      exists pre, mid, post; (split; [exact Hs|]); tauto. }
  destruct Hex as (pre & mid & post & -> & Hmid). clear H.
  unfold re_search. generalize (@None char).
  induction pre as [|c pre IH]; intros prev; rewrite search_from_eq.
  - cbn [app].
    destruct (attempt U ERROR_MARKERS false prev (mid ++ post)) eqn:Ha;
      [reflexivity|].
    exfalso. exact (attempt_finds_marker prev mid post Hmid Ha).
  - destruct (attempt U ERROR_MARKERS false prev ((c :: pre) ++ mid ++ post));
      [reflexivity|apply IH].
Qed.

End ErrorTest.

(** X10: the error test takes for an error every tool result whose
    message has a truthy [error] or [isError] field, and every payload
    in which the letters of error, exception or traceback occur in any
    letter case, also inside a longer word or a sentence that reports
    success. *)
Theorem error_test_accepts (E : env) (mkvs : list (pystr * value))
    (payload : pystr) :
  truthy (dict_get mkvs (u "error")) = true
  \/ truthy (dict_get mkvs (u "isError")) = true
  \/ contains_anycase "error" payload
  \/ contains_anycase "exception" payload
  \/ contains_anycase "traceback" payload ->
  is_error E (JObj mkvs) payload = Ok true.
Proof.
  intros H. unfold is_error. cbn [get bind]. f_equal.
  destruct H as [H|[H|H]].
  - unfold py_or. now rewrite H, H.
  - unfold py_or.
    destruct (truthy (dict_get mkvs (u "error"))) eqn:He;
      [now rewrite He|now rewrite H].
  - rewrite (search_finds_marker (unicode E) payload H). apply orb_true_r.
Qed.

Lemma error_test_accepts_witness :
  contains_anycase "error" (u "no errors found")
  /\ is_error example_env calm_result (u "no errors found") = Ok true
  /\ erroring_result example_env calm_result.
Proof.
  assert (H : contains_anycase "error" (u "no errors found"))
    by (exists (u "no "), (u "error"), (u "s found"); split; reflexivity).
  pose proof (error_test_accepts example_env calm_fields (u "no errors found")
                (or_intror (or_intror (or_introl H)))) as Herr.
  split; [exact H|]. split; [exact Herr|].
  eexists _, _, _. repeat (split; [reflexivity|]). exact Herr.
Defined.

(** ** The document *)

Section Document.
Variable E : env.

Lemma map_imap {A B C : Type} (g : B -> C) (h : A -> C) (l : list A) :
  forall f : nat -> A -> B,
    (forall i x, g (f i x) = h x) -> map g (imap f l) = map h l.
Proof.
  induction l as [|x l IH]; intros f Hf; cbn; [reflexivity|].
  rewrite Hf. f_equal. apply IH. intros i y. apply Hf.
Qed.

Lemma type_name_error (k : step_type) :
  str_eqb (type_name k) (u "error") = step_type_eqb k Error.
Proof. destruct k; reflexivity. Qed.

Lemma filter_imap_length (b : bool) (sts : list step) :
  forall f : nat -> step -> out_step,
    (forall i s, out_type (f i s) = type_name (step_type_of s)) ->
    length (List.filter (fun o => str_eqb (out_type o) (u "error"))
                        (imap f sts))
    = count_errors sts.
Proof.
  unfold count_errors.
  induction sts as [|s sts IH]; intros f Hf; cbn [imap List.filter];
    [reflexivity|].
  rewrite Hf, type_name_error.
  destruct (step_type_eqb (step_type_of s) Error); cbn [length];
    rewrite IH; auto; intros i x; apply Hf.
Qed.

(** X11: the document has one step for each normalized step, in the
    same order, with the type and the elapsed time of that step and a
    null timestamp; the summary counts these steps, and its error count
    is the number of normalized steps of type error, with redaction on
    or off. *)
Theorem document_mirrors_steps (sess : session) (redact_enabled : bool) :
  let doc := build_tape_v1 E sess redact_enabled in
  map out_type (tape_steps doc)
  = map (fun s => type_name (step_type_of s)) (steps sess)
  /\ map elapsed_seconds (tape_steps doc) = map step_t (steps sess)
  /\ map timestamp (tape_steps doc) = map (fun _ => JNull) (steps sess)
  /\ summary_steps (tape_summary doc) = length (steps sess)
  /\ errors (tape_summary doc) = count_errors (steps sess).
Proof.
  cbn [build_tape_v1 tape_steps tape_summary summary_steps errors].
  split; [now apply map_imap|]. split; [now apply map_imap|].
  split; [now apply map_imap|]. split.
  - apply length_imap.
  - now apply (filter_imap_length redact_enabled).
Qed.

(** *** The ids *)

Lemma u_inj (a b : string) : u a = u b -> a = b.
Proof.
  revert b. induction a as [|x a IH]; intros [|y b]; cbn [u];
    try discriminate; [reflexivity|].
  intros [= Hxy Hab]. f_equal; [|now apply IH].
  rewrite <- (ascii_N_embedding x), <- (ascii_N_embedding y). now f_equal.
Qed.

Lemma str_of_nat_inj (n m : nat) : str_of_nat n = str_of_nat m -> n = m.
Proof.
  unfold str_of_nat. intros H%u_inj.
  assert (Hnn : forall k, Nat.to_uint k <> Decimal.Nil).
  { intros k. rewrite <- (DecimalNat.Unsigned.of_to k) at 1.
    rewrite DecimalNat.Unsigned.to_of. apply DecimalFacts.unorm_nonnil. }
  apply DecimalNat.Unsigned.to_uint_inj.
  pose proof (NilZero.usu (Nat.to_uint n) (Hnn n)) as Hn.
  pose proof (NilZero.usu (Nat.to_uint m) (Hnn m)) as Hm.
  rewrite H in Hn. rewrite Hn in Hm. now injection Hm.
Qed.

Lemma imap_ids (b : bool) (sts : list step) (k : nat) :
  map id (imap (fun i => build_step E b (k + i)) sts)
  = map (fun i => u "step_" ++ str_of_nat (i + 1)) (seq k (length sts)).
Proof.
  revert k. induction sts as [|s sts IH]; intros k; cbn [imap length seq map];
    [reflexivity|].
  f_equal.
  - cbn [build_step id]. now rewrite Nat.add_0_r.
  - rewrite <- IH. f_equal. apply imap_ext. intros i x _.
    unfold compose. f_equal. lia.
Qed.

(** X12: the steps of the document are numbered from 1 in their order:
    the step at position [i] has the id [step_] followed by the decimal
    of [i + 1]; so no two steps share an id. *)
Theorem ids_are_distinct (sess : session) (redact_enabled : bool) :
  let doc := build_tape_v1 E sess redact_enabled in
  map id (tape_steps doc)
  = map (fun i => u "step_" ++ str_of_nat (i + 1))
        (seq 0 (length (steps sess)))
  /\ List.NoDup (map id (tape_steps doc)).
Proof.
  cbn zeta.
  assert (Hids : map id (tape_steps (build_tape_v1 E sess redact_enabled))
                 = map (fun i => u "step_" ++ str_of_nat (i + 1))
                       (seq 0 (length (steps sess))))
    by apply (imap_ids redact_enabled (steps sess) 0).
  split; [exact Hids|]. rewrite Hids.
  apply Finite.Injective_map_NoDup; [|apply List.seq_NoDup].
  intros i j Hij. apply app_inv_head in Hij.
  apply str_of_nat_inj in Hij. lia.
Qed.

(** *** The tools of the summary *)

Lemma str_ltb_irrefl (a : pystr) : str_ltb a a = false.
Proof.
  induction a as [|x a IH]; cbn; [reflexivity|].
  now rewrite N.ltb_irrefl, N.eqb_refl, IH.
Qed.

Lemma str_ltb_trans (a b c : pystr) :
  str_ltb a b = true -> str_ltb b c = true -> str_ltb a c = true.
Proof.
  revert b c. induction a as [|x a IH]; intros [|y b] [|z c]; cbn;
    try discriminate; try reflexivity.
  intros Hab Hbc.
  apply orb_true_iff in Hab as [Hab|[Hxy Hab]%andb_true_iff];
    apply orb_true_iff in Hbc as [Hbc|[Hyz Hbc]%andb_true_iff];
    rewrite ?N.ltb_lt, ?N.eqb_eq in *; apply orb_true_iff.
  - left. apply N.ltb_lt. lia.
  - left. apply N.ltb_lt. lia.
  - left. apply N.ltb_lt. lia.
  - right. apply andb_true_iff. split; [apply N.eqb_eq; lia|eauto].
Qed.

Lemma str_ltb_total (a b : pystr) :
  str_ltb a b = false -> a <> b -> str_ltb b a = true.
Proof.
  revert b. induction a as [|x a IH]; intros [|y b]; cbn;
    try discriminate; try reflexivity; try congruence.
  intros [Hlt Hrest]%orb_false_iff Hne.
  apply N.ltb_ge in Hlt. apply orb_true_iff.
  destruct (N.eq_dec x y) as [->|Hxy].
  - right. rewrite N.eqb_refl in *. cbn in *.
    apply IH; [exact Hrest|congruence].
  - left. apply N.ltb_lt. lia.
Qed.

Lemma insert_sorted_In (x y : pystr) (l : list pystr) :
  In y (insert_sorted x l) <-> y = x \/ In y l.
Proof.
  induction l as [|z l IH]; cbn; [intuition|].
  destruct (str_ltb x z); cbn; [intuition|]. rewrite IH. intuition.
Qed.

Lemma insert_sorted_strict (x : pystr) (l : list pystr) :
  StronglySorted str_lt l -> ~ In x l ->
  StronglySorted str_lt (insert_sorted x l).
Proof.
  induction 1 as [|z l Hs IH Hz]; intros Hx; cbn.
  - repeat constructor.
  - destruct (str_ltb x z) eqn:Hxz.
    + constructor; [now constructor|].
      constructor; [exact Hxz|].
      eapply List.Forall_impl; [|exact Hz].
      intros w Hw. eapply str_ltb_trans; eassumption.
    + constructor; [apply IH; cbn in Hx; tauto|].
      apply List.Forall_forall. intros w Hw.
      apply insert_sorted_In in Hw as [->|Hw].
      * apply str_ltb_total; [exact Hxz|]. cbn in Hx. intuition.
      * rewrite List.Forall_forall in Hz. now apply Hz.
Qed.

Lemma py_set_In (y : pystr) (l : list pystr) : In y (py_set l) <-> In y l.
Proof.
  induction l as [|x l IH]; cbn; [reflexivity|].
  rewrite List.filter_In, IH. split.
  - intuition.
  - intros [->|H]; [now left|].
    destruct (str_eqb x y) eqn:Hxy.
    + apply str_eqb_eq in Hxy. now left.
    + right. now split.
Qed.

Lemma py_set_NoDup (l : list pystr) : List.NoDup (py_set l).
Proof.
  induction l as [|x l IH]; cbn; constructor.
  - rewrite List.filter_In. intros [_ H].
    now rewrite str_eqb_refl in H.
  - now apply List.NoDup_filter.
Qed.

Lemma sorted_strict (l : list pystr) :
  List.NoDup l ->
  StronglySorted str_lt (sorted l) /\ forall y, In y (sorted l) <-> In y l.
Proof.
  unfold sorted. induction 1 as [|x l Hx Hnd [IHs IHi]]; cbn.
  - split; [constructor|reflexivity].
  - split.
    + apply insert_sorted_strict; [exact IHs|]. now rewrite IHi.
    + intros y. rewrite insert_sorted_In, IHi. intuition.
Qed.

Lemma action_tools_In (name : pystr) (sts : list step) :
  In name (action_tools sts)
  <-> name <> [] /\ exists s, In s sts /\ step_type_of s = Action
                              /\ step_tool s = Some name.
Proof.
  unfold action_tools. rewrite in_flat_map. split.
  - intros (s & Hs & Hin). destruct (step_tool s) as [n|] eqn:Ht;
      [|destruct Hin].
    destruct (step_type_eqb (step_type_of s) Action) eqn:Hty;
      [|destruct Hin].
    destruct (nonempty n) eqn:Hn; [|destruct Hin].
    destruct Hin as [<-|[]].
    split; [now apply nonempty_true|].
    exists s. rewrite Ht. apply step_type_eqb_eq in Hty. auto.
  - intros (Hne & s & Hs & Hty & Ht). exists s. split; [exact Hs|].
    rewrite Ht, Hty. apply nonempty_true in Hne. rewrite Hne. now left.
Qed.

(** X13: the tools of the summary are in strictly increasing order of
    their code points, so none is repeated, and they are exactly the
    non-empty tool names of the action steps, as they stand in the
    steps, with redaction on or off. *)
Theorem tools_used_sorted_set (sess : session) (redact_enabled : bool) :
  let tools := tools_used (tape_summary (build_tape_v1 E sess redact_enabled)) in
  StronglySorted str_lt tools
  /\ forall name,
       In name tools
       <-> name <> [] /\ exists s, In s (steps sess)
                                   /\ step_type_of s = Action
                                   /\ step_tool s = Some name.
Proof.
  cbn [build_tape_v1 tape_summary tools_used].
  destruct (sorted_strict _ (py_set_NoDup (action_tools (steps sess))))
    as [Hs Hi].
  split; [exact Hs|].
  intros name. now rewrite Hi, py_set_In, action_tools_In.
Qed.

(** *** The content of a step *)

(** X14: in the content of a document step the only values that can be
    empty are the [text] of a user or thought step and the
    [description] of an action step: [tool], [message] and the
    description of a result have a default, and [output],
    [stack_preview] and [details] are left out when empty. *)
Theorem content_values_not_empty (sess : session) (redact_enabled : bool)
    (o : out_step) (key : pystr) :
  In o (tape_steps (build_tape_v1 E sess redact_enabled)) ->
  In (key, []) (content o) ->
  key = u "text" \/ (key = u "description" /\ out_type o = u "action").
Proof.
  cbn [build_tape_v1 tape_steps]. intros Ho.
  assert (Hex : exists i s, o = build_step E redact_enabled i s).
  { generalize (build_step E redact_enabled) Ho. clear Ho.
    induction (steps sess) as [|s sts IH]; intros f Hin; cbn in Hin;
      [destruct Hin|].
    destruct Hin as [<-|Hin]; [eauto|].
    destruct (IH _ Hin) as (i & x & ->). unfold compose. eauto. }
  destruct Hex as (i & s & ->). clear Ho.
  unfold build_step. cbn [content out_type].
  destruct (step_type_of s); cbn [type_name];
    repeat match goal with
           | |- context [nonempty ?x] =>
               let Hn := fresh "Hn" in
               destruct (nonempty x) eqn:Hn
           | |- context [match ?x with Some _ => _ | None => _ end] =>
               destruct x
           end;
    cbn [In app]; intros Hin;
    repeat match goal with
           | H : _ \/ _ |- _ => destruct H as [H|H]
           | H : (_, _) = (_, _) |- _ => injection H as <- H
           | H : False |- _ => destruct H
           end;
    auto;
    try discriminate;
    try (match goal with
         | H1 : nonempty ?x = true, H2 : ?x = [] |- _ =>
             rewrite H2 in H1; discriminate
         | H1 : nonempty ?x = true, H2 : [] = ?x |- _ =>
             rewrite <- H2 in H1; discriminate
         end).
Qed.

End Document.

Lemma content_values_not_empty_witness :
  exists o,
    In o (tape_steps (build_tape_v1 example_env tools_session true))
    /\ content o = [(u "tool", u "write"); (u "description", u "write")]
    /\ ~ In (u "tool", []) (content o).
Proof.
  eexists. split; [left; reflexivity|]. split; [vm_compute; reflexivity|].
  intros Hin.
  destruct (content_values_not_empty example_env tools_session true _
              (u "tool") (or_introl eq_refl) Hin) as [H|[H _]];
    discriminate.
Defined.

(** ** Duration, title and user messages *)

Section Summary.
Variable E : env.

Lemma fold_max_spec (l : list Z) (a : Z) :
  (a <= fold_left Z.max l a)%Z
  /\ Forall (fun x => (x <= fold_left Z.max l a)%Z) l
  /\ In (fold_left Z.max l a) (a :: l).
Proof.
  revert a. induction l as [|x l IH]; intros a; cbn [fold_left].
  - repeat split; [lia|constructor|now left].
  - destruct (IH (Z.max a x)) as (Ha & Hl & Hin). repeat split.
    + lia.
    + constructor; [lia|exact Hl].
    + destruct Hin as [Hin|Hin]; [|right; now right].
      rewrite <- Hin.
      destruct (Z.max_spec a x) as [[_ Hm]|[_ Hm]]; rewrite Hm.
      * right. now left.
      * now left.
Qed.

Lemma steps_nonneg (records : list value) (fn : pystr) (sess : session) :
  normalize_openclaw E records fn = Ok sess ->
  Forall (fun s => (0 <= step_t s)%Z) (steps sess).
Proof.
  intros H.
  destruct (normalize_run _ _ _ _ H)
    as (meta & first & rest & start & st & _ & _ & _ & Hrun & ->).
  destruct (run_records_times _ _ _ _ _ Hrun) as (groups & _ & Hpos & Hmap).
  apply List.Forall_map with (f := step_t) (P := fun t => (0 <= t)%Z).
  rewrite Hmap. cbn [fst map app]. clear -Hpos.
  induction Hpos as [|[t n] groups Ht Hpos IH]; cbn; [constructor|].
  apply Forall_app. split; [|exact IH].
  cbn in Ht. clear -Ht. induction n; cbn; constructor; auto.
Qed.

(** X15: the duration of a normalized session is 0 when it has no step
    and otherwise the elapsed time of one of its steps; it is not
    negative and no step has a greater elapsed time. *)
Theorem duration_is_latest_step (records : list value) (fn : pystr)
    (sess : session) :
  normalize_openclaw E records fn = Ok sess ->
  (0 <= duration_seconds sess)%Z
  /\ Forall (fun s => (step_t s <= duration_seconds sess)%Z) (steps sess)
  /\ (steps sess = [] -> duration_seconds sess = 0%Z)
  /\ (steps sess <> [] ->
      exists s, In s (steps sess) /\ step_t s = duration_seconds sess).
Proof.
  intros H. pose proof (steps_nonneg _ _ _ H) as Hpos.
  assert (Hd : duration_seconds sess = duration_of (steps sess)).
  { clear Hpos. unfold normalize_openclaw in H.
    destruct (find_session records) as [meta|e]; [|discriminate].
    destruct (message_records records) as [recs|e]; [|discriminate].
    cbn [bind] in H. destruct recs as [|first rest]; [discriminate|].
    destruct (start_time E first meta) as [start|e]; [|discriminate].
    cbn [bind] in H.
    destruct (run_records E start ([], []) (first :: rest)) as [st|e];
      [|discriminate].
    cbn [bind] in H. now injection H as <-. }
  rewrite Hd. clear Hd H.
  destruct (steps sess) as [|s sts]; cbn [duration_of].
  - repeat split; [lia|constructor|congruence].
  - destruct (fold_max_spec (map step_t sts) (step_t s)) as (Ha & Hl & Hin).
    inversion Hpos as [|? ? Hs _]; subst.
    repeat split.
    + lia.
    + constructor; [exact Ha|].
      apply List.Forall_map with (f := step_t)
        (P := fun t => (t <= fold_left Z.max (map step_t sts) (step_t s))%Z).
      exact Hl.
    + discriminate.
    + intros _. change (step_t s :: map step_t sts)
        with (map step_t (s :: sts)) in Hin.
      apply in_map_iff in Hin as (x & Hx & Hin). eauto.
Qed.

(** *** The title *)

Lemma lstrip_suffix (U : unicode_db) (s : pystr) :
  exists w, s = w ++ lstrip U s /\ Forall (fun c => is_space U c = true) w.
Proof.
  induction s as [|c s (w & Hw & Hsp)]; cbn [lstrip].
  - exists []. split; [reflexivity|constructor].
  - destruct (is_space U c) eqn:Hc.
    + exists (c :: w). split; [cbn; now f_equal|now constructor].
    + exists []. split; [reflexivity|constructor].
Qed.

Lemma lstrip_head (U : unicode_db) (s : pystr) (c : char) (rest : pystr) :
  lstrip U s = c :: rest -> is_space U c = false.
Proof.
  induction s as [|x s IH]; cbn [lstrip]; [discriminate|].
  destruct (is_space U x) eqn:Hx; [exact IH|]. now intros [= <- _].
Qed.

Lemma lstrip_blank (U : unicode_db) (s : pystr) :
  Forall (fun c => is_space U c = true) s -> lstrip U s = [].
Proof.
  induction 1 as [|c s Hc _ IH]; cbn [lstrip]; [reflexivity|].
  now rewrite Hc.
Qed.

Lemma strip_head (U : unicode_db) (s : pystr) (c : char) (rest : pystr) :
  strip U s = c :: rest -> is_space U c = false.
Proof.
  unfold strip. intros H.
  destruct (lstrip_suffix U (rev (lstrip U s))) as (w & Hw & _).
  apply (f_equal (@rev char)) in Hw. rewrite rev_involutive, rev_app_distr in Hw.
  rewrite H in Hw. cbn [app] in Hw. now apply lstrip_head in Hw.
Qed.

Lemma strip_blank (U : unicode_db) (s : pystr) :
  Forall (fun c => is_space U c = true) s -> strip U s = [].
Proof. intros H. unfold strip. now rewrite (lstrip_blank U s H). Qed.

Lemma clip_title_length (t : pystr) : length (clip_title t) <= 65.
Proof.
  unfold clip_title. destruct (Nat.ltb_spec 64 (length t)) as [Hlt|Hge].
  - rewrite length_app, length_take. cbn [length]. lia.
  - lia.
Qed.

Lemma clip_title_head (t : pystr) (c : char) (rest : pystr) :
  clip_title t = c :: rest -> exists rest', t = c :: rest'.
Proof.
  unfold clip_title. destruct (Nat.ltb_spec 64 (length t)) as [Hlt|_]; [|eauto].
  destruct t as [|x t]; [cbn in Hlt; lia|].
  cbn [take app]. intros [= <- _]. eauto.
Qed.

(** X16: a title taken from a user step has at most 65 characters (64
    and the ellipsis) and does not begin with white space; when the
    text of that step is white space only the title is empty, and
    neither the session key nor the file name stands in for it. *)
Theorem user_title_is_short (records : list value) (fn : pystr)
    (sess : session) (before after : list step) (s : step) :
  normalize_openclaw E records fn = Ok sess ->
  steps sess = before ++ s :: after ->
  Forall (fun x => ~ user_with_text x) before ->
  user_with_text s ->
  length (title sess) <= 65
  /\ (forall c rest, title sess = c :: rest -> is_space (unicode E) c = false)
  /\ (Forall (fun c => is_space (unicode E) c = true) (step_text s) ->
      title sess = []).
Proof.
  intros H Hst Hb Hs.
  destruct (normalize_title E _ _ _ H) as (meta & recs & _ & _ & Ht).
  rewrite Hst in Ht. unfold title_of in Ht.
  rewrite (first_user_found before after s Hb Hs) in Ht. rewrite Ht.
  split; [apply clip_title_length|]. split.
  - intros c rest Hc. apply clip_title_head in Hc as (rest' & Hc).
    eapply strip_head, Hc.
  - intros Hblank. now rewrite (strip_blank _ _ Hblank).
Qed.

(** *** User messages *)

Lemma user_blocks_map (t : Z) (content : list value) (sts : list step) :
  fold_left (user_block E t) content sts
  = sts ++ map (fun c => mk_step User t (py_str E (block_text c)) [] None)
               (List.filter is_text_block content).
Proof.
  revert sts. induction content as [|c content IH]; intros sts;
    cbn [fold_left List.filter map]; [now rewrite app_nil_r|].
  rewrite IH. unfold user_block.
  destruct c; cbn [is_text_block]; try reflexivity.
  fold (is_text_block (JObj kvs)).
  destruct (is_text_block (JObj kvs)); [|reflexivity].
  cbn [map block_text]. now rewrite <- app_assoc.
Qed.

(** X17: a user message adds one user step for each of its text blocks
    that has a text, in their order and at the time of the message,
    with no code; every other entry of its content is passed over, and
    the pending calls stay as they are. *)
Theorem user_message_steps (start_dt : datetime) (sts : list step)
    (stack : list nat) (rec msg role : value) (content : list value)
    (t : Z) :
  message_of rec = Ok msg ->
  role_of msg rec = Ok role ->
  is_str role "user" = true ->
  elapsed E start_dt rec = Ok t ->
  content_of msg rec = Ok content ->
  process_record E start_dt (sts, stack) rec
  = Ok (sts ++ map (fun c => mk_step User t (py_str E (block_text c)) [] None)
                   (List.filter is_text_block content),
        stack).
Proof.
  intros Hmsg Hrole Hu Ht Hc. unfold process_record.
  rewrite Hmsg. cbn [bind]. rewrite Hrole. cbn [bind].
  rewrite Ht. cbn [bind]. rewrite Hc. cbn [bind]. rewrite Hu.
  cbn [fst snd]. now rewrite user_blocks_map.
Qed.

End Summary.

Lemma duration_is_latest_step_witness :
  exists sess,
    normalize_openclaw example_env timed_records (u "s.jsonl") = Ok sess
    /\ duration_seconds sess = 5000000%Z
    /\ Forall (fun s => (step_t s <= duration_seconds sess)%Z) (steps sess).
Proof.
  destruct (normalize_openclaw example_env timed_records (u "s.jsonl"))
    as [sess|] eqn:H; [|discriminate].
  exists sess.
  destruct (duration_is_latest_step example_env _ _ _ H) as (_ & Hle & _).
  split; [reflexivity|]. split; [|exact Hle].
  injection H as <-. reflexivity.
Defined.

Lemma user_title_is_short_witness :
  exists sess,
    normalize_openclaw example_env blank_prompt (u "s.jsonl") = Ok sess
    /\ map step_text (steps sess) = [u "   "]
    /\ title sess = [].
Proof.
  destruct (normalize_openclaw example_env blank_prompt (u "s.jsonl"))
    as [sess|] eqn:H; [|discriminate].
  exists sess. split; [reflexivity|].
  assert (Hsteps : steps sess
                   = [] ++ mk_step User 0 (u "   ") [] None :: [])
    by (injection H as <-; reflexivity).
  destruct (user_title_is_short example_env _ _ _ _ _ _ H Hsteps
              ltac:(constructor) ltac:(split; [reflexivity|discriminate]))
    as (_ & _ & Hblank).
  split; [now rewrite Hsteps|].
  apply Hblank. repeat constructor.
Defined.

Lemma user_message_steps_witness :
  process_record example_env (utcnow example_env) ([], [7]) mixed_user
  = Ok ([mk_step User 0 (u "look") [] None;
         mk_step User 0 (u "here") [] None], [7]).
Proof.
  rewrite (user_message_steps example_env (utcnow example_env) [] [7]
             mixed_user _ _ _ 0%Z eq_refl eq_refl eq_refl eq_refl eq_refl).
  reflexivity.
Defined.

(** ** Redaction of plain prose *)

Section Prose.
Variable U : unicode_db.

Lemma prose_tail (c : char) (s : pystr) :
  prose (c :: s) = true ->
  plain_char c = true /\ (run ascii_lower (c :: s) < 40) /\ prose s = true.
Proof.
  unfold prose. cbn [forallb runs_below]. intros H.
  apply andb_true_iff in H as [H1 H2].
  apply andb_true_iff in H1 as [Hc Hs].
  apply andb_true_iff in H2 as [Hr Hrs].
  apply Nat.ltb_lt in Hr.
  split; [exact Hc|]. split; [exact Hr|]. now rewrite Hs, Hrs.
Qed.

Lemma prose_run (s : pystr) : prose s = true -> run ascii_lower s < 40.
Proof.
  destruct s as [|c s]; [cbn; lia|]. intros H.
  now destruct (prose_tail _ _ H) as (_ & Hr & _).
Qed.

Lemma plain_char_In (c : char) : plain_char c = true -> In c alphabet.
Proof.
  unfold plain_char. intros H.
  apply existsb_exists in H as (x & Hx & Heq).
  apply N.eqb_eq in Heq. now subst.
Qed.

Lemma rejects_plain (ic neg : bool) (items : list item) (c : char) :
  rejects U ic neg items = true -> plain_char c = true ->
  cls_match U ic neg items c = false.
Proof.
  unfold rejects. intros H Hc. apply plain_char_In in Hc.
  rewrite forallb_forall in H. apply H in Hc.
  now apply negb_true_iff in Hc.
Qed.

Lemma only_letters_plain (ic neg : bool) (items : list item) (c : char) :
  only_letters U ic neg items = true -> plain_char c = true ->
  cls_match U ic neg items c = true -> ascii_lower c = true.
Proof.
  unfold only_letters. intros H Hc Hm. apply plain_char_In in Hc.
  rewrite forallb_forall in H. apply H in Hc. now rewrite Hm in Hc.
Qed.

Lemma run_rejects (ic neg : bool) (items : list item) (s : pystr) :
  rejects U ic neg items = true -> prose s = true ->
  run (cls_match U ic neg items) s = 0.
Proof.
  intros H Hs. destruct s as [|c s]; [reflexivity|].
  destruct (prose_tail _ _ Hs) as (Hc & _ & _). cbn [run].
  now rewrite (rejects_plain _ _ _ _ H Hc).
Qed.

Lemma run_only_letters (ic neg : bool) (items : list item) (s : pystr) :
  only_letters U ic neg items = true -> prose s = true ->
  run (cls_match U ic neg items) s <= run ascii_lower s.
Proof.
  intros H. induction s as [|c s IH]; intros Hs; [cbn; lia|].
  destruct (prose_tail _ _ Hs) as (Hc & _ & Hs'). cbn [run].
  destruct (cls_match U ic neg items c) eqn:Hm; [|lia].
  rewrite (only_letters_plain _ _ _ _ H Hc Hm). specialize (IH Hs'). lia.
Qed.

Section Engine.
Variable R : Type.

Lemma rep_greedy_run (ok : char -> bool) (s : pystr) (lo : nat)
    (hi : option nat) (prev : option char)
    (k : option char -> pystr -> option R) (x : R) :
  rep_greedy ok lo hi prev s k = Some x -> lo <= run ok s.
Proof.
  revert lo hi prev x. induction s as [|c s IH]; intros lo hi prev x;
    cbn [rep_greedy run].
  - destruct lo; [lia|discriminate].
  - destruct (more hi); cbn [andb].
    + destruct (ok c).
      * destruct (rep_greedy ok (Nat.pred lo) (dec hi) (Some c) s k) eqn:Hr.
        -- intros _. apply IH in Hr. lia.
        -- destruct lo; [lia|discriminate].
      * destruct lo; [lia|discriminate].
    + destruct lo; [lia|discriminate].
Qed.

Lemma rep_lazy_run (ok : char -> bool) (s : pystr) (lo : nat)
    (hi : option nat) (prev : option char)
    (k : option char -> pystr -> option R) (x : R) :
  rep_lazy ok lo hi prev s k = Some x -> lo <= run ok s.
Proof.
  revert lo hi prev x. induction s as [|c s IH]; intros lo hi prev x;
    cbn [rep_lazy run].
  - destruct lo; [lia|discriminate].
  - destruct lo as [|lo]; [lia|].
    destruct (more hi); cbn [andb]; [|discriminate].
    destruct (ok c); [|discriminate].
    intros Hr. apply IH in Hr. cbn in Hr. lia.
Qed.

Lemma rep_greedy_reach (ok : char -> bool) (s : pystr) (lo : nat)
    (hi : option nat) (prev : option char)
    (k : option char -> pystr -> option R) :
  prose s = true ->
  (forall p' s', prose s' = true -> k p' s' = None) ->
  rep_greedy ok lo hi prev s k = None.
Proof.
  intros Hs Hk. revert lo hi prev.
  induction s as [|c s IH]; intros lo hi prev; cbn [rep_greedy].
  - destruct lo; [now apply Hk|reflexivity].
  - destruct (prose_tail _ _ Hs) as (_ & _ & Hs').
    assert (Hstop : match lo with 0 => k prev (c :: s) | S _ => None end
                    = None) by (destruct lo; [now apply Hk|reflexivity]).
    destruct (more hi && ok c); [|exact Hstop].
    now rewrite (IH Hs').
Qed.

Lemma rep_lazy_reach (ok : char -> bool) (s : pystr) (lo : nat)
    (hi : option nat) (prev : option char)
    (k : option char -> pystr -> option R) :
  prose s = true ->
  (forall p' s', prose s' = true -> k p' s' = None) ->
  rep_lazy ok lo hi prev s k = None.
Proof.
  intros Hs Hk. revert lo hi prev.
  induction s as [|c s IH]; intros lo hi prev; cbn [rep_lazy].
  - destruct lo; [now rewrite (Hk prev [] Hs)|reflexivity].
  - destruct (prose_tail _ _ Hs) as (_ & _ & Hs').
    assert (Hstep : (if more hi && ok c
                     then rep_lazy ok (Nat.pred lo) (dec hi) (Some c) s k
                     else None) = None)
      by (destruct (more hi && ok c); [apply (IH Hs')|reflexivity]).
    destruct lo; [now rewrite (Hk prev (c :: s) Hs)|exact Hstep].
Qed.

(** An expression finds nothing in prose when it needs a character that
    prose does not have, or when what follows it finds nothing. *)
Lemma rmatch_prose (ic : bool) (r : regex) :
  forall (prev : option char) (s : pystr)
         (k : option char -> pystr -> option R),
    prose s = true ->
    needs U ic r = true
    \/ (forall p' s', prose s' = true -> k p' s' = None) ->
    rmatch U ic r prev s k = None.
Proof.
  induction r as [|neg items| |r1 IH1 r2 IH2|r1 IH1 r2 IH2
                  |greedy lo hi neg items];
    intros prev s k Hs H; cbn [rmatch needs] in *.
  - destruct H as [H|H]; [discriminate|now apply H].
  - destruct s as [|c s]; [reflexivity|].
    destruct (prose_tail _ _ Hs) as (Hc & _ & Hs').
    destruct H as [H|H].
    + now rewrite (rejects_plain _ _ _ _ H Hc).
    + destruct (cls_match U ic neg items c); [now apply H|reflexivity].
  - destruct H as [H|H]; [discriminate|].
    destruct (at_boundary U prev s); [now apply H|reflexivity].
  - apply IH1; [exact Hs|].
    destruct H as [H|H].
    + apply orb_true_iff in H as [H|H]; [now left|].
      right. intros p' s' Hs'. apply IH2; [exact Hs'|now left].
    + right. intros p' s' Hs'. apply IH2; [exact Hs'|now right].
  - destruct H as [H|H].
    + apply andb_true_iff in H as [H1 H2].
      rewrite (IH1 prev s k Hs (or_introl H1)).
      apply IH2; [exact Hs|now left].
    + rewrite (IH1 prev s k Hs (or_intror H)).
      apply IH2; [exact Hs|now right].
  - destruct H as [H|H].
    + assert (Hrun : run (cls_match U ic neg items) s < lo).
      { apply orb_true_iff in H as [H|H];
          apply andb_true_iff in H as [Hlo Hcls].
        - apply Nat.ltb_lt in Hlo. rewrite (run_rejects _ _ _ _ Hcls Hs). lia.
        - apply Nat.leb_le in Hlo.
          pose proof (run_only_letters _ _ _ _ Hcls Hs).
          pose proof (prose_run _ Hs). lia. }
      destruct greedy.
      * destruct (rep_greedy (cls_match U ic neg items) lo hi prev s k)
          eqn:Hr; [|reflexivity].
        apply rep_greedy_run in Hr. lia.
      * destruct (rep_lazy (cls_match U ic neg items) lo hi prev s k)
          eqn:Hr; [|reflexivity].
        apply rep_lazy_run in Hr. lia.
    + destruct greedy; [now apply rep_greedy_reach|now apply rep_lazy_reach].
Qed.

End Engine.

Lemma attempt_prose (p : pattern) (b : bool) (prev : option char)
    (s : pystr) :
  needs U (pat_ignorecase p) (pat_re p) = true -> prose s = true ->
  attempt U p b prev s = None.
Proof.
  intros Hn Hs. unfold attempt. apply rmatch_prose; [exact Hs|now left].
Qed.

Lemma re_sub_prose (p : pattern) (rep s : pystr) :
  needs U (pat_ignorecase p) (pat_re p) = true -> prose s = true ->
  re_sub U p rep s = s.
Proof.
  intros Hn. unfold re_sub. generalize (@None char).
  induction s as [|c s IH]; intros prev Hs; cbn [sub_from];
    rewrite (attempt_prose p false prev _ Hn Hs); [reflexivity|].
  destruct (prose_tail _ _ Hs) as (_ & _ & Hs'). f_equal. now apply IH.
Qed.

Lemma rules_need_more :
  forallb (fun rule => needs U (pat_ignorecase (fst rule)) (pat_re (fst rule)))
          REDACTION_RULES = true.
Proof. vm_compute. reflexivity. Qed.

(** X18: redaction leaves plain prose as it is. A text written with
    lower-case ASCII letters, blanks, line ends and the marks
    . , ; : ! ? ' ( ) in which no 40 letters follow one another comes
    back from [redact] unchanged: no rule finds a match in it. *)
Theorem redact_keeps_prose (text : pystr) :
  prose text = true -> redact U (Some text) true = Some text.
Proof.
  intros Hs. unfold redact. cbn [negb]. f_equal.
  pose proof rules_need_more as Hrules. rewrite forallb_forall in Hrules.
  induction REDACTION_RULES as [|rule rules IH]; [reflexivity|].
  cbn [fold_left].
  rewrite (re_sub_prose (fst rule) (snd rule) text
             (Hrules rule (or_introl eq_refl)) Hs).
  apply IH. intros x Hx. apply Hrules. now right.
Qed.

End Prose.

Lemma redact_keeps_prose_witness :
  prose quiet_request = true
  /\ redact ascii_db (Some quiet_request) true = Some quiet_request.
Proof.
  split; [reflexivity|].
  apply (redact_keeps_prose ascii_db quiet_request). reflexivity.
Defined.
